(** * PeriPy: the OpenCL step engine of [peridynamics/model_cl.py]

    A shallow embedding of [ModelCL.__init__] and [ModelCL.simulate].
    Host arrays and device buffers are fields of one explicit state; every
    kernel dispatch, buffer copy and collaborator call appends an event to
    a log, so that the order of the actions of a run can be stated.

    Integer arrays (int32) are lists of [Z]; the neighbour list is a list
    of rows.  The damage array (float64) is a list of [Q]: every value the
    damage kernel produces is a ratio of two small integers.  Coordinate,
    displacement and force arrays are kept abstract ([field]), together
    with the floating-point operations on them. *)

From Stdlib Require Import ZArith QArith Qabs String DecimalString DecimalZ Lia.
From stdpp Require Import base list.

#[local] Open Scope Z_scope.

(** ** Python values and exceptions *)

Inductive exn : Type :=
| ContextError
| TypeError
| ValueError
| IndexError
| ZeroDivisionError
| ModelError (msg : string).

Definition result (A : Type) : Type := (exn + A)%type.

Definition bind {A B : Type} (m : result A) (k : A -> result B) : result B :=
  match m with
  | inl e => inl e
  | inr a => k a
  end.

Notation "'do' x <- m ; k" := (bind m (fun x => k))
  (at level 10, x name, m at level 100, k at level 200).

(** [if write:] for [write] being [None] or an [int]. *)
Definition truthy (w : option Z) : bool :=
  match w with
  | None => false
  | Some n => negb (n =? 0)
  end.

(** [a % b] on Python integers; [Z.modulo] has the sign of the divisor,
    as Python's [%] has. *)
Definition py_mod (a b : Z) : result Z :=
  if b =? 0 then inl ZeroDivisionError else inr (a mod b).

(** [step % write], where [write] may still be [None]. *)
Definition py_mod_val (a : Z) (w : option Z) : result Z :=
  match w with
  | None => inl TypeError
  | Some b => py_mod a b
  end.

(** [range(a, b)] *)
Definition py_range (a b : Z) : list Z :=
  map (fun k : nat => a + Z.of_nat k) (seq 0 (Z.to_nat (b - a))).

(** [pathlib] paths as lists of components; [p / name]. *)
Definition path : Type := list string.

Definition path_join (p : path) (name : string) : path := p ++ [name].

(** [f"U_{step}.vtk"] *)
Definition snapshot_name (step : Z) : string :=
  String.append "U_"
    (String.append (NilEmpty.string_of_int (Z.to_int step)) ".vtk").

(** ** The kernels

    The OpenCL program text ([kernel_source]) is not part of
    [model_cl.py]; the two kernels that mutate or derive connectivity
    data are modelled from the specification, the force kernel is a
    parameter of the engine. *)

Module Kernel.

(** Modelled from the spec: the "swap-to-end compaction" step of the
    [break_bonds] kernel: exchange the bond in slot [neigh] with the one
    in slot [last]. *)
Definition swap_to_end (row : list Z) (neigh last : nat) : list Z :=
  match row !! neigh, row !! last with
  | Some a, Some b => <[last := a]> (<[neigh := b]> row)
  | _, _ => row
  end.

(** Modelled from the spec: the loop of the [break_bonds] kernel over
    the live slots of one row: [neigh] is the slot under inspection and
    [neigh + rem] the live count; a broken bond is swapped with the last
    live slot and the live count shrinks, a kept bond advances the scan.
    The result is the row and the new live count. *)
Fixpoint scan_row (broken : Z -> bool) (rem neigh : nat) (row : list Z)
  : list Z * nat :=
  match rem with
  | O => (row, neigh)
  | S rem' =>
      match row !! neigh with
      | Some j =>
          if broken j
          then scan_row broken rem' neigh (swap_to_end row neigh (neigh + rem'))
          else scan_row broken rem' (S neigh) row
      | None => scan_row broken rem' (S neigh) row
      end
  end.

(** Modelled from the spec: the [break_bonds] kernel of the OpenCL
    program, one work item.  "For each active neighbor j (0-indexed
    through active count) ... if stretch exceeds the critical strain, the
    bond is broken ... the live active count for node i must shrink ...
    swap-to-end compaction of the neighbor row". *)
Definition break_row (broken : Z -> bool) (row : list Z) (cnt : Z)
  : list Z * Z :=
  if cnt <? 0 then (row, cnt)
  else
    let '(row', n) := scan_row broken (Z.to_nat cnt) 0 row in
    (row', Z.of_nat n).

(** The first [n] slots of [row] hold no bond that is to break. *)
Definition settled (broken : Z -> bool) (row : list Z) (n : nat) : Prop :=
  forall k j, (k < n)%nat -> row !! k = Some j -> broken j = false.

(** Modelled from the spec: the [damage] kernel of the OpenCL program,
    one work item: "damage[i] = (family[i] - n_neigh[i]) / family[i]",
    with the conventional choice of 0 damage for [family[i] = 0]. *)
Definition damage_node (fam n : Z) : Q :=
  if fam =? 0 then 0%Q else (inject_Z (fam - n) / inject_Z fam)%Q.

End Kernel.

(** ** The step engine *)

(** What [model_cl.py] imports and does not define: the float64 array
    operations of numpy, the OpenCL program and the device query. *)
Class Backend : Type := {
  (** float64 arrays of shape (nnodes, 3), with numpy's [+] and [zeros] *)
  field : Type;
  field_add : field -> field -> field;
  field_zeros : nat -> field;
  (** the stretch of the bond from node [i] to node [j], as the device
      computes it from the current and the reference coordinates *)
  stretch : field -> field -> nat -> Z -> Q;
  (** the [bond_force] kernel: coordinates, reference coordinates,
      neighbour list, live counts, row capacity, volumes and stiffness to
      the force array *)
  bond_force_kernel :
    field -> field -> list (list Z) -> list Z -> Z -> list Q -> Q -> field;
  (** the path [_simulate_initialise] falls back to when the caller
      gives no [write_path] *)
  default_write_path : path;
  (** OpenCL devices and [double_fp_support] of [peridynamics.cl] *)
  cl_device : Type;
  double_fp_support : cl_device -> bool
}.

Section Engine.

Context {backend : Backend}.

Definition connectivity_t : Type := (list (list Z) * list Z)%type.

(** The attributes of [Model] that the engine reads. *)
Record Model : Type := {
  nnodes : nat;
  coords : field;
  volume : list Q;
  family : list Z;
  max_neighbours : Z;
  bond_stiffness : Q;
  critical_strain : Q;
  initial_connectivity : connectivity_t
}.

(** *** Kernel dispatches over [nnodes] work items *)

Definition bond_broken (r r0 : field) (crit : Q) (i : nat) (j : Z) : bool :=
  negb (Qle_bool (stretch r r0 i j) crit).

(** Modelled from the spec: the [break_bonds] kernel over all nodes,
    "performed per node independently and in parallel".  Work item [i]
    reads and writes row [i] and count [i] only; the row capacity
    [max_neigh] is the stride of the flat device array, which the list of
    rows makes implicit. *)
Definition break_bonds_kernel (nn : nat) (r r0 : field)
    (nl : list (list Z)) (cnt : list Z) (max_neigh : Z) (crit : Q)
  : list (list Z) * list Z :=
  (imap (fun i row =>
           if (i <? nn)%nat then
             match cnt !! i with
             | Some c => fst (Kernel.break_row (bond_broken r r0 crit i) row c)
             | None => row
             end
           else row) nl,
   imap (fun i c =>
           if (i <? nn)%nat then
             match nl !! i with
             | Some row => snd (Kernel.break_row (bond_broken r r0 crit i) row c)
             | None => c
             end
           else c) cnt).

(** Modelled from the spec: the [damage] kernel over all nodes; work
    item [i] writes cell [i] of the damage buffer. *)
Definition damage_kernel (nn : nat) (cnt fam : list Z) (dmg : list Q)
  : list Q :=
  imap (fun i d =>
          if (i <? nn)%nat then
            match cnt !! i, fam !! i with
            | Some n, Some f => Kernel.damage_node f n
            | _, _ => d
            end
          else d) dmg.

(** *** State: host arrays, device buffers, and the log of actions *)

Inductive event : Type :=
| EvBondForce
| EvCopyForce
| EvIntegrator
| EvBoundary (step : Z)
| EvRefreshCoords
| EvBreakBonds
| EvDamage
| EvCopyDamage
| EvCopyNlist
| EvCopyNneigh
| EvWriteMesh (p : path) (damage : list Q) (u : field).

Record Host : Type := {
  u : field;
  nlist : list (list Z);
  n_neigh : list Z;
  damage : list Q;
  force : field
}.

Record Device : Type := {
  r0_d : field;
  volume_d : list Q;
  family_d : list Z;
  r_d : field;
  nlist_d : list (list Z);
  n_neigh_d : list Z;
  damage_d : list Q;
  force_d : field
}.

Record state : Type := {
  host : Host;
  dev : Device;
  log : list event
}.

Definition set_u (x : field) (h : Host) : Host :=
  {| u := x; nlist := nlist h; n_neigh := n_neigh h; damage := damage h;
     force := force h |}.
Definition set_nlist (x : list (list Z)) (h : Host) : Host :=
  {| u := u h; nlist := x; n_neigh := n_neigh h; damage := damage h;
     force := force h |}.
Definition set_n_neigh (x : list Z) (h : Host) : Host :=
  {| u := u h; nlist := nlist h; n_neigh := x; damage := damage h;
     force := force h |}.
Definition set_damage (x : list Q) (h : Host) : Host :=
  {| u := u h; nlist := nlist h; n_neigh := n_neigh h; damage := x;
     force := force h |}.
Definition set_force (x : field) (h : Host) : Host :=
  {| u := u h; nlist := nlist h; n_neigh := n_neigh h; damage := damage h;
     force := x |}.

Definition set_r_d (x : field) (d : Device) : Device :=
  {| r0_d := r0_d d; volume_d := volume_d d; family_d := family_d d;
     r_d := x; nlist_d := nlist_d d; n_neigh_d := n_neigh_d d;
     damage_d := damage_d d; force_d := force_d d |}.
Definition set_connectivity_d (x : connectivity_t) (d : Device) : Device :=
  {| r0_d := r0_d d; volume_d := volume_d d; family_d := family_d d;
     r_d := r_d d; nlist_d := fst x; n_neigh_d := snd x;
     damage_d := damage_d d; force_d := force_d d |}.
Definition set_damage_d (x : list Q) (d : Device) : Device :=
  {| r0_d := r0_d d; volume_d := volume_d d; family_d := family_d d;
     r_d := r_d d; nlist_d := nlist_d d; n_neigh_d := n_neigh_d d;
     damage_d := x; force_d := force_d d |}.
Definition set_force_d (x : field) (d : Device) : Device :=
  {| r0_d := r0_d d; volume_d := volume_d d; family_d := family_d d;
     r_d := r_d d; nlist_d := nlist_d d; n_neigh_d := n_neigh_d d;
     damage_d := damage_d d; force_d := x |}.

Definition action : Type := state -> result state.

Definition seq_action (a b : action) : action := fun st => bind (a st) b.

Notation "a ;; b" := (seq_action a b) (at level 100, right associativity).

Definition skip : action := fun st => inr st.

(** One host or device effect, recorded in the log. *)
Definition effect (e : state -> event) (fh : state -> Host -> Host)
    (fd : state -> Device -> Device) : action :=
  fun st =>
    inr {| host := fh st (host st); dev := fd st (dev st);
           log := log st ++ [e st] |}.

Definition keep {A : Type} (_ : state) (x : A) : A := x.

(** Arguments of [simulate] other than [steps] and [integrator]. *)
Record Kwargs : Type := {
  boundary_function : option (Model -> field -> Z -> field);
  u_init : option field;
  connectivity : option connectivity_t;
  first_step : Z;
  write : option Z;
  write_path : option path
}.

(** What freshly allocated, never written memory happens to hold:
    [np.empty], [np.empty_like] and a [cl.Buffer] created without
    [COPY_HOST_PTR]. *)
Record Uninit : Type := {
  empty_damage : nat -> Q;
  empty_damage_d : nat -> Q;
  empty_force : field;
  empty_force_d : field
}.

Definition np_empty (junk : nat -> Q) (shape : nat) : list Q :=
  map junk (seq 0 shape).

Section Simulate.

Variable self : Model.
Variable integrator : field -> field -> field.

(** Modelled from the spec: [Model._simulate_initialise], defined in
    [model.py]: "boundary_function (optional, default identity), u
    (optional initial displacement, default zero), connectivity (optional
    override)", "if omitted, use the connectivity captured at model
    construction". *)
Definition _simulate_initialise (kw : Kwargs)
  : list (list Z) * list Z * field * (Model -> field -> Z -> field) * path :=
  let u := default (field_zeros (nnodes self)) (u_init kw) in
  let '(nlist, n_neigh) := default (initial_connectivity self) (connectivity kw) in
  let bf := default (fun _ u _ => u) (boundary_function kw) in
  let wp := default default_write_path (write_path kw) in
  (nlist, n_neigh, u, bf, wp).

Section Loop.

(** The locals of [simulate] the loop body reads but never rebinds. *)
Variable bf : Model -> field -> Z -> field.
Variable wr : option Z.
Variable wpath : path.

(** [self._bond_force(r_d, r0_d, nlist_d, n_neigh_d, ...)] *)
Definition _bond_force : action :=
  effect (fun _ => EvBondForce) keep
    (fun st =>
       set_force_d
         (bond_force_kernel (r_d (dev st)) (r0_d (dev st)) (nlist_d (dev st))
            (n_neigh_d (dev st)) (max_neighbours self) (volume_d (dev st))
            (bond_stiffness self))).

(** [cl.enqueue_copy(queue, force, force_d)] *)
Definition copy_force : action :=
  effect (fun _ => EvCopyForce) (fun st => set_force (force_d (dev st))) keep.

(** [u = integrator(u, force)] *)
Definition call_integrator : action :=
  effect (fun _ => EvIntegrator)
    (fun st => set_u (integrator (u (host st)) (force (host st)))) keep.

(** [u = boundary_function(self, u, step)] *)
Definition call_boundary (step : Z) : action :=
  effect (fun _ => EvBoundary step)
    (fun st => set_u (bf self (u (host st)) step)) keep.

(** [r_d = cl.Buffer(..., hostbuf=self.coords+u)] *)
Definition refresh_coords : action :=
  effect (fun _ => EvRefreshCoords) keep
    (fun st => set_r_d (field_add (coords self) (u (host st)))).

(** [self._break_bonds(r_d, r0_d, nlist_d, n_neigh_d, ...)] *)
Definition _break_bonds : action :=
  effect (fun _ => EvBreakBonds) keep
    (fun st =>
       set_connectivity_d
         (break_bonds_kernel (nnodes self) (r_d (dev st)) (r0_d (dev st))
            (nlist_d (dev st)) (n_neigh_d (dev st)) (max_neighbours self)
            (critical_strain self))).

(** [self._damage(n_neigh_d, family_d, damage_d)] *)
Definition _damage : action :=
  effect (fun _ => EvDamage) keep
    (fun st =>
       set_damage_d
         (damage_kernel (nnodes self) (n_neigh_d (dev st)) (family_d (dev st))
            (damage_d (dev st)))).

(** [cl.enqueue_copy(queue, damage, damage_d)] *)
Definition copy_damage : action :=
  effect (fun _ => EvCopyDamage) (fun st => set_damage (damage_d (dev st))) keep.

(** [cl.enqueue_copy(queue, nlist, nlist_d)] *)
Definition copy_nlist : action :=
  effect (fun _ => EvCopyNlist) (fun st => set_nlist (nlist_d (dev st))) keep.

(** [cl.enqueue_copy(queue, n_neigh, n_neigh_d)] *)
Definition copy_n_neigh : action :=
  effect (fun _ => EvCopyNneigh) (fun st => set_n_neigh (n_neigh_d (dev st))) keep.

(** [self.write_mesh(p, damage, u)]: the mesh writer is an external
    collaborator; the call is recorded with its arguments. *)
Definition write_mesh (p : path) : action :=
  effect (fun st => EvWriteMesh p (damage (host st)) (u (host st))) keep keep.

(** Lines 177-180: the snapshot branch. *)
Definition write_branch (step : Z) : action :=
  fun st =>
    if truthy wr then
      do m <- py_mod_val step wr;
      if m =? 0 then
        (copy_damage ;; write_mesh (path_join wpath (snapshot_name step))) st
      else inr st
    else inr st.

(** Lines 156-180: the body of the loop. *)
Definition loop_body (step : Z) : action :=
  _bond_force ;;
  copy_force ;;
  call_integrator ;;
  call_boundary step ;;
  refresh_coords ;;
  _break_bonds ;;
  _damage ;;
  write_branch step.

(** [for step in ...: body] *)
Fixpoint for_each (body : Z -> action) (steps : list Z) : action :=
  match steps with
  | [] => skip
  | t :: ts => body t ;; for_each body ts
  end.

End Loop.

(** Lines 123-151: the buffers as they are before the first step. *)
Definition initial_state (kw : Kwargs) (mem : Uninit) : state :=
  let '(nlist, n_neigh, u, _, _) := _simulate_initialise kw in
  {| host := {| u := u; nlist := nlist; n_neigh := n_neigh;
                damage := np_empty (empty_damage mem) (length n_neigh);
                force := empty_force mem |};
     dev := {| r0_d := coords self; volume_d := volume self;
               family_d := family self;
               r_d := field_add (coords self) u;
               nlist_d := nlist; n_neigh_d := n_neigh;
               damage_d := np_empty (empty_damage_d mem) (length n_neigh);
               force_d := empty_force_d mem |};
     log := [] |}.

(** Lines 153-180: the loop over the first [k] steps of the run. *)
Definition run_loop (kw : Kwargs) (first : Z) (k : Z) : action :=
  let '(_, _, _, bf, wp) := _simulate_initialise kw in
  for_each (loop_body bf (write kw) wp) (py_range first (first + k)).

(** Lines 182-184 *)
Definition final_sync : action := copy_damage ;; copy_nlist ;; copy_n_neigh.

(** The whole of [simulate], as the state it ends in. *)
Definition simulate_run (steps : Z) (kw : Kwargs) (mem : Uninit) : result state :=
  (run_loop kw (first_step kw) steps ;; final_sync) (initial_state kw mem).

(** [return u, damage, (nlist, n_neigh)] *)
Definition returned (st : state) : field * list Q * connectivity_t :=
  (u (host st), damage (host st), (nlist (host st), n_neigh (host st))).

Definition simulate (steps : Z) (kw : Kwargs) (mem : Uninit)
  : result (field * list Q * connectivity_t) :=
  do st <- simulate_run steps kw mem; inr (returned st).

End Simulate.

(** [simulate(..., write=w)] with the other arguments as in [kw]. *)
Definition with_write (w : option Z) (kw : Kwargs) : Kwargs :=
  {| boundary_function := boundary_function kw; u_init := u_init kw;
     connectivity := connectivity kw; first_step := first_step kw;
     write := w; write_path := write_path kw |}.

(** The events that are not a copy of the neighbour list or of the live
    counts to the host. *)
Definition loop_event (e : event) : bool :=
  match e with
  | EvCopyNlist | EvCopyNneigh => false
  | _ => true
  end.

(** The paths of the snapshots a log records, in order. *)
Definition snapshots (l : list event) : list path :=
  flat_map (fun e => match e with EvWriteMesh p _ _ => [p] | _ => [] end) l.

(** "A write interval is configured and step mod interval == 0". *)
Definition snapshot_due (w : option Z) (step : Z) : bool :=
  match w with
  | Some n => negb (n =? 0) && (step mod n =? 0)
  | None => false
  end.

(** The data-model invariant on the live counts:
    0 <= n_neigh[i] <= family[i] <= max_neighbours. *)
Definition counts_ok (mx : Z) (fam cnt : list Z) : Prop :=
  Forall2 (fun n f => 0 <= n <= f /\ f <= mx) cnt fam.

(** The seven actions every step starts with, as the log shows them. *)
Definition step_events (step : Z) : list event :=
  [EvBondForce; EvCopyForce; EvIntegrator; EvBoundary step; EvRefreshCoords;
   EvBreakBonds; EvDamage].

(** How the state [st'] reached after the damage kernel of step [step]
    depends on the state [st] the step started in. *)
Definition kernels_done (self : Model) (integrator : field -> field -> field)
    (bf : Model -> field -> Z -> field) (step : Z) (st st' : state) : Prop :=
  log st' = log st ++ step_events step /\
  force_d (dev st') =
    bond_force_kernel (r_d (dev st)) (r0_d (dev st)) (nlist_d (dev st))
      (n_neigh_d (dev st)) (max_neighbours self) (volume_d (dev st))
      (bond_stiffness self) /\
  force (host st') = force_d (dev st') /\
  u (host st') = bf self (integrator (u (host st)) (force (host st'))) step /\
  r_d (dev st') = field_add (coords self) (u (host st')) /\
  (nlist_d (dev st'), n_neigh_d (dev st')) =
    break_bonds_kernel (nnodes self) (r_d (dev st')) (r0_d (dev st))
      (nlist_d (dev st)) (n_neigh_d (dev st)) (max_neighbours self)
      (critical_strain self) /\
  damage_d (dev st') =
    damage_kernel (nnodes self) (n_neigh_d (dev st')) (family_d (dev st))
      (damage_d (dev st)) /\
  (r0_d (dev st'), volume_d (dev st'), family_d (dev st')) =
    (r0_d (dev st), volume_d (dev st), family_d (dev st)) /\
  (nlist (host st'), n_neigh (host st'), damage (host st')) =
    (nlist (host st), n_neigh (host st), damage (host st)).

(** *** Views of a state and of a log, and variants of the arguments *)

(** What the next step reads of a state: the displacement, and the
    device buffers other than the force and damage scratch buffers. *)
Definition mechanics (st : state)
  : field * field * field * list Q * list Z * list (list Z) * list Z :=
  (u (host st), r_d (dev st), r0_d (dev st), volume_d (dev st),
   family_d (dev st), nlist_d (dev st), n_neigh_d (dev st)).

(** The step numbers the boundary function was called with, in order. *)
Definition boundary_steps (l : list event) : list Z :=
  flat_map (fun e => match e with EvBoundary t => [t] | _ => [] end) l.

Definition is_dispatch (e : event) : bool :=
  match e with
  | EvBondForce | EvBreakBonds | EvDamage => true
  | _ => false
  end.

Definition is_integrator_call (e : event) : bool :=
  match e with
  | EvIntegrator => true
  | _ => false
  end.

(** The arguments of a restart: [simulate(m, integrator,
    boundary_function, u=u1, connectivity=conn1, first_step=first+n,
    write, write_path)], with [u1] and [conn1] returned by an earlier
    run of [n] steps. *)
Definition restart (kw : Kwargs) (u1 : field) (conn1 : connectivity_t)
    (n : Z) : Kwargs :=
  {| boundary_function := boundary_function kw; u_init := Some u1;
     connectivity := Some conn1; first_step := first_step kw + n;
     write := write kw; write_path := write_path kw |}.

(** [simulate(..., write=w, write_path=wp)] with the other arguments as
    in [kw]. *)
Definition with_output (w : option Z) (wp : option path) (kw : Kwargs)
  : Kwargs :=
  {| boundary_function := boundary_function kw; u_init := u_init kw;
     connectivity := connectivity kw; first_step := first_step kw;
     write := w; write_path := wp |}.

(** [simulate(..., first_step=a)] with the other arguments as in [kw]. *)
Definition with_first_step (a : Z) (kw : Kwargs) : Kwargs :=
  {| boundary_function := boundary_function kw; u_init := u_init kw;
     connectivity := connectivity kw; first_step := a;
     write := write kw; write_path := write_path kw |}.

(** *** Construction *)

(** A [pyopencl] context, and an arbitrary Python object that may or may
    not be one ([type(self.context) is cl._cl.Context]). *)
Record Context : Type := { devices : list cl_device }.

Inductive pyobj : Type :=
| PyContext (c : Context)
| PyOther.

Record ModelCL : Type := {
  model : Model;
  context : Context
}.

Section Construct.

(** [Model.__init__] of [model.py], and [get_context] of
    [peridynamics.cl]. *)
Variable A : Type.
Variable Model_init : A -> result Model.
Variable get_context : pyobj.

(** [self.context.devices[0]] *)
Definition device0 (c : Context) : result cl_device :=
  match devices c with
  | d :: _ => inr d
  | [] => inl IndexError
  end.

(** Lines 13-39; building the program and the queue changes nothing the
    engine observes. *)
Definition ModelCL_init (args : A) (ctx : option pyobj) : result ModelCL :=
  do m <- Model_init args;
  match ctx with
  | None =>
      match get_context with
      | PyContext c => inr {| model := m; context := c |}
      | PyOther => inl ContextError
      end
  | Some o =>
      match o with
      | PyContext c =>
          do d <- device0 c;
          if negb (double_fp_support d) then inl ValueError
          else inr {| model := m; context := c |}
      | PyOther => inl TypeError
      end
  end.

End Construct.

End Engine.

(** ** A small instance: three nodes on a line

    Coordinates are one rational per node; the stretch of a bond is its
    relative elongation. *)

Module Line.

Definition pos (r : list Q) (i : nat) : Q := default 0%Q (r !! i).

Definition bond_length (r : list Q) (i : nat) (j : Z) : Q :=
  Qabs (pos r (Z.to_nat j) - pos r i)%Q.

Definition line_stretch (r r0 : list Q) (i : nat) (j : Z) : Q :=
  ((bond_length r i j - bond_length r0 i j) / bond_length r0 i j)%Q.

Definition line_force (r r0 : list Q) (nl : list (list Z)) (cnt : list Z)
    (mx : Z) (vol : list Q) (k : Q) : list Q :=
  map (fun _ => 0%Q) r.

#[export] Instance line : Backend := {|
  field := list Q;
  field_add := zip_with Qplus;
  field_zeros := fun n => replicate n 0%Q;
  stretch := line_stretch;
  bond_force_kernel := line_force;
  default_write_path := [];
  cl_device := bool;
  double_fp_support := fun d => d
|}.

Definition chain : Model := {|
  nnodes := 3;
  coords := [0; 1; 2]%Q;
  volume := [1; 1; 1]%Q;
  family := [2; 2; 2];
  max_neighbours := 2;
  bond_stiffness := 1%Q;
  critical_strain := (1 # 2)%Q;
  initial_connectivity := ([[1; 2]; [0; 2]; [0; 1]], [2; 2; 2])
|}.

(** An explicit Euler-like integrator. *)
Definition euler (u f : list Q) : list Q := zip_with Qplus u f.

(** The boundary condition pulls the last node by [step]. *)
Definition pull (_ : Model) (u : list Q) (step : Z) : list Q :=
  <[2%nat := inject_Z step]> u.

Definition kwargs : Kwargs := {|
  boundary_function := Some pull;
  u_init := None;
  connectivity := None;
  first_step := 1;
  write := Some 2;
  write_path := Some ["out"%string]
|}.

Definition memory (d : Q) : Uninit := {|
  empty_damage := fun _ => d;
  empty_damage_d := fun _ => d;
  empty_force := [];
  empty_force_d := []
|}.

(** A restart from the connectivity an earlier run returned. *)
Definition resumed : Kwargs := {|
  boundary_function := Some pull;
  u_init := Some [0; 0; 3]%Q;
  connectivity := Some ([[1; 2]; [0; 2]; [0; 1]], [1; 1; 0]);
  first_step := 4;
  write := None;
  write_path := None
|}.

(** A run without boundary conditions and without snapshots. *)
Definition unloaded : Kwargs := {|
  boundary_function := None;
  u_init := Some [0; 0; 1]%Q;
  connectivity := None;
  first_step := 1;
  write := None;
  write_path := None
|}.

Definition no_double : Context := {| devices := [false] |}.

End Line.


(** * Properties *)

Section Properties.

Context {backend : Backend}.

(** ** The loop *)

Lemma py_range_length (a k : Z) :
  py_range a (a + k) = map (fun i : nat => a + Z.of_nat i) (seq 0 (Z.to_nat k)).
Proof. unfold py_range. replace (a + k - a) with k by lia. reflexivity. Qed.

Lemma py_range_snoc (a k : Z) :
  0 <= k -> py_range a (a + (k + 1)) = py_range a (a + k) ++ [a + k].
Proof.
  intros Hk. rewrite !py_range_length.
  replace (Z.to_nat (k + 1)) with (S (Z.to_nat k)) by lia.
  rewrite seq_S, map_app. simpl. do 3 f_equal. lia.
Qed.

Lemma py_range_empty (a k : Z) : k <= 0 -> py_range a (a + k) = [].
Proof.
  intros Hk. rewrite py_range_length.
  replace (Z.to_nat k) with O by lia. reflexivity.
Qed.

Lemma for_each_app (body : Z -> action) (l1 l2 : list Z) (st : state) :
  for_each body (l1 ++ l2) st = bind (for_each body l1 st) (for_each body l2).
Proof.
  revert st. induction l1 as [|t l1 IH]; intros st; simpl.
  - reflexivity.
  - unfold seq_action. destruct (body t st) as [e|st1]; simpl.
    + reflexivity.
    + apply IH.
Qed.

Lemma for_each_snoc (body : Z -> action) (l : list Z) (t : Z) (st : state) :
  for_each body (l ++ [t]) st = bind (for_each body l st) (body t).
Proof.
  rewrite for_each_app. destruct (for_each body l st) as [e|st1]; simpl.
  - reflexivity.
  - unfold seq_action, skip. destruct (body t st1); reflexivity.
Qed.

Section Step.

Variable self : Model.
Variable integrator : field -> field -> field.
Variable bf : Model -> field -> Z -> field.
Variable wr : option Z.
Variable wp : path.

Lemma write_branch_spec (t : Z) (st : state) :
  exists st',
    write_branch wr wp t st = inr st' /\
    dev st' = dev st /\
    (u (host st'), nlist (host st'), n_neigh (host st'), force (host st')) =
      (u (host st), nlist (host st), n_neigh (host st), force (host st)) /\
    if snapshot_due wr t
    then log st' =
           log st ++ [EvCopyDamage;
                      EvWriteMesh (path_join wp (snapshot_name t))
                        (damage_d (dev st)) (u (host st))]
         /\ damage (host st') = damage_d (dev st)
    else st' = st.
Proof.
  unfold write_branch, snapshot_due, truthy.
  destruct wr as [w|]; [|eexists; repeat split].
  destruct (w =? 0) eqn:Hw; simpl; [eexists; repeat split|].
  unfold py_mod. rewrite Hw. simpl.
  destruct (t mod w =? 0); [|eexists; repeat split].
  eexists. split; [reflexivity|]. simpl.
  repeat split. rewrite <- app_assoc. reflexivity.
Qed.

Lemma loop_body_spec (t : Z) (st : state) :
  exists st7,
    loop_body self integrator bf wr wp t st = write_branch wr wp t st7 /\
    kernels_done self integrator bf t st st7.
Proof.
  eexists. split; [reflexivity|].
  unfold kernels_done, step_events. simpl.
  repeat split. rewrite <- !app_assoc. reflexivity.
Qed.

Lemma loop_body_total (t : Z) (st : state) :
  exists st', loop_body self integrator bf wr wp t st = inr st'.
Proof.
  destruct (loop_body_spec t st) as (st7 & -> & _).
  destruct (write_branch_spec t st7) as (st' & -> & _). eauto.
Qed.

Lemma for_each_total (l : list Z) (st : state) :
  exists st', for_each (loop_body self integrator bf wr wp) l st = inr st'.
Proof.
  revert st. induction l as [|t l IH]; intros st; simpl.
  - eexists. reflexivity.
  - unfold seq_action. destruct (loop_body_total t st) as (st1 & ->). simpl.
    apply IH.
Qed.

End Step.

(** ** Whole runs *)

Section Run.

Variable self : Model.
Variable integrator : field -> field -> field.

(** The boundary function and the write path the loop uses. *)
Lemma run_loop_unfold (kw : Kwargs) (first k : Z) :
  run_loop self integrator kw first k =
  for_each
    (loop_body self integrator (default (fun _ u _ => u) (boundary_function kw))
       (write kw) (default default_write_path (write_path kw)))
    (py_range first (first + k)).
Proof.
  unfold run_loop, _simulate_initialise.
  destruct (default (initial_connectivity self) (connectivity kw)).
  reflexivity.
Qed.

Lemma initial_state_unfold (kw : Kwargs) (mem : Uninit) :
  let u0 := default (field_zeros (nnodes self)) (u_init kw) in
  let conn := default (initial_connectivity self) (connectivity kw) in
  initial_state self kw mem =
  {| host := {| u := u0; nlist := fst conn; n_neigh := snd conn;
                damage := np_empty (empty_damage mem) (length (snd conn));
                force := empty_force mem |};
     dev := {| r0_d := coords self; volume_d := volume self;
               family_d := family self;
               r_d := field_add (coords self) u0;
               nlist_d := fst conn; n_neigh_d := snd conn;
               damage_d := np_empty (empty_damage_d mem) (length (snd conn));
               force_d := empty_force_d mem |};
     log := [] |}.
Proof.
  unfold initial_state, _simulate_initialise.
  destruct (default (initial_connectivity self) (connectivity kw)).
  reflexivity.
Qed.

Lemma run_loop_total (kw : Kwargs) (first k : Z) (st : state) :
  exists st', run_loop self integrator kw first k st = inr st'.
Proof. rewrite run_loop_unfold. apply for_each_total. Qed.

Lemma run_loop_zero (kw : Kwargs) (first k : Z) (st : state) :
  k <= 0 -> run_loop self integrator kw first k st = inr st.
Proof.
  intros Hk. rewrite run_loop_unfold, py_range_empty by assumption.
  reflexivity.
Qed.

Lemma run_loop_succ (kw : Kwargs) (first k : Z) (st : state) :
  0 <= k ->
  run_loop self integrator kw first (k + 1) st =
  bind (run_loop self integrator kw first k st)
    (loop_body self integrator (default (fun _ u _ => u) (boundary_function kw))
       (write kw) (default default_write_path (write_path kw)) (first + k)).
Proof.
  intros Hk. rewrite !run_loop_unfold, py_range_snoc by assumption.
  apply for_each_snoc.
Qed.

Lemma final_sync_spec (st : state) :
  final_sync st =
  inr {| host := set_n_neigh (n_neigh_d (dev st))
                   (set_nlist (nlist_d (dev st))
                      (set_damage (damage_d (dev st)) (host st)));
         dev := dev st;
         log := log st ++ [EvCopyDamage; EvCopyNlist; EvCopyNneigh] |}.
Proof.
  unfold final_sync, seq_action, copy_damage, copy_nlist, copy_n_neigh, effect.
  simpl. rewrite <- !app_assoc. reflexivity.
Qed.

Lemma simulate_run_unfold (steps : Z) (kw : Kwargs) (mem : Uninit) :
  simulate_run self integrator steps kw mem =
  bind (run_loop self integrator kw (first_step kw) steps
          (initial_state self kw mem)) final_sync.
Proof. reflexivity. Qed.

(** With no step to run, [simulate] hands back what it was given,
    and the damage array is whatever the damage buffer was allocated
    with. *)
Lemma simulate_zero (kw : Kwargs) (mem : Uninit) :
  let conn := default (initial_connectivity self) (connectivity kw) in
  simulate self integrator 0 kw mem =
  inr (default (field_zeros (nnodes self)) (u_init kw),
       np_empty (empty_damage_d mem) (length (snd conn)),
       conn).
Proof.
  unfold simulate. rewrite simulate_run_unfold, run_loop_zero by lia.
  simpl bind at 2. rewrite final_sync_spec, initial_state_unfold. simpl.
  destruct (default (initial_connectivity self) (connectivity kw)).
  reflexivity.
Qed.

End Run.

(** ** Snapshots *)

Lemma snapshots_app (l1 l2 : list event) :
  snapshots (l1 ++ l2) = snapshots l1 ++ snapshots l2.
Proof. unfold snapshots. apply flat_map_app. Qed.

Lemma snapshots_loop_body (self : Model) (integrator : field -> field -> field)
    (bf : Model -> field -> Z -> field) (wr : option Z) (wp : path)
    (t : Z) (st st' : state) :
  loop_body self integrator bf wr wp t st = inr st' ->
  snapshots (log st') =
  snapshots (log st) ++
  (if snapshot_due wr t then [path_join wp (snapshot_name t)] else []).
Proof.
  destruct (loop_body_spec self integrator bf wr wp t st) as (st7 & -> & Hk).
  destruct (write_branch_spec wr wp t st7) as (st1 & -> & _ & _ & Hw).
  intros [= <-]. destruct Hk as (Hlog & _).
  destruct (snapshot_due wr t).
  - destruct Hw as (-> & _). rewrite Hlog, !snapshots_app. simpl.
    rewrite app_nil_r. reflexivity.
  - subst st1. rewrite Hlog, snapshots_app. simpl. reflexivity.
Qed.

Lemma snapshots_for_each (self : Model) (integrator : field -> field -> field)
    (bf : Model -> field -> Z -> field) (wr : option Z) (wp : path)
    (l : list Z) (st st' : state) :
  for_each (loop_body self integrator bf wr wp) l st = inr st' ->
  snapshots (log st') =
  snapshots (log st) ++
  map (fun t => path_join wp (snapshot_name t)) (List.filter (snapshot_due wr) l).
Proof.
  revert st. induction l as [|t l IH]; intros st; simpl.
  - intros [= <-]. rewrite app_nil_r. reflexivity.
  - unfold seq_action.
    destruct (loop_body self integrator bf wr wp t st) as [e|st1] eqn:Hb;
      simpl; [discriminate|].
    intros Hrest. rewrite (IH _ Hrest), (snapshots_loop_body _ _ _ _ _ _ _ _ Hb).
    rewrite <- app_assoc. destruct (snapshot_due wr t); reflexivity.
Qed.

Lemma string_append_length (a b : string) :
  String.length (String.append a b) = (String.length a + String.length b)%nat.
Proof. induction a as [|c a IH]; simpl; [reflexivity | rewrite IH; reflexivity]. Qed.

Lemma string_append_cancel_r (s a b : string) :
  String.append a s = String.append b s -> a = b.
Proof.
  revert b. induction a as [|c a IH]; intros [|c' b] H; simpl in H.
  - reflexivity.
  - apply (f_equal String.length) in H. simpl in H.
    rewrite string_append_length in H. lia.
  - apply (f_equal String.length) in H. simpl in H.
    rewrite string_append_length in H. lia.
  - injection H as -> H. f_equal. apply IH, H.
Qed.

Lemma snapshot_name_inj (t1 t2 : Z) :
  snapshot_name t1 = snapshot_name t2 -> t1 = t2.
Proof.
  unfold snapshot_name. intros H. simpl in H. injection H as H.
  apply string_append_cancel_r in H.
  apply DecimalZ.to_int_inj.
  assert (Hs : Some (Z.to_int t1) = Some (Z.to_int t2))
    by (rewrite <- !NilEmpty.isi, H; reflexivity).
  injection Hs as Hs. exact Hs.
Qed.

Lemma for_each_events (self : Model) (integrator : field -> field -> field)
    (bf : Model -> field -> Z -> field) (wr : option Z) (wp : path)
    (l : list Z) (st st' : state) :
  for_each (loop_body self integrator bf wr wp) l st = inr st' ->
  Forall (fun e => loop_event e = true) (log st) ->
  Forall (fun e => loop_event e = true) (log st').
Proof.
  revert st. induction l as [|t l IH]; intros st; simpl.
  - intros [= <-] H. exact H.
  - unfold seq_action.
    destruct (loop_body_spec self integrator bf wr wp t st) as (st7 & -> & Hk).
    destruct (write_branch_spec wr wp t st7) as (st1 & -> & _ & _ & Hw).
    simpl. intros Hrest H0. apply (IH _ Hrest).
    destruct Hk as (Hlog & _).
    assert (H7 : Forall (fun e => loop_event e = true) (log st7)).
    { rewrite Hlog. apply Forall_app. split; [exact H0|].
      unfold step_events. repeat constructor. }
    destruct (snapshot_due wr t).
    + destruct Hw as (-> & _). apply Forall_app. split; [exact H7|].
      repeat constructor.
    + subst st1. exact H7.
Qed.

(** ** The claims about [simulate] *)

(** C2: after the loop, whether or not it ran, [simulate] copies the
    damage, neighbour-list and live-count buffers to the host, once each
    and as its last three actions (the loop itself copies neither the
    neighbour list nor the live counts), and returns the displacement
    together with the contents of these three buffers. *)
Theorem simulate_final_sync (self : Model) (integrator : field -> field -> field)
    (steps : Z) (kw : Kwargs) (mem : Uninit) :
  exists st_loop st,
    run_loop self integrator kw (first_step kw) steps (initial_state self kw mem)
      = inr st_loop /\
    (steps <= 0 -> st_loop = initial_state self kw mem) /\
    Forall (fun e => loop_event e = true) (log st_loop) /\
    simulate_run self integrator steps kw mem = inr st /\
    log st = log st_loop ++ [EvCopyDamage; EvCopyNlist; EvCopyNneigh] /\
    dev st = dev st_loop /\
    simulate self integrator steps kw mem =
      inr (u (host st_loop), damage_d (dev st_loop),
           (nlist_d (dev st_loop), n_neigh_d (dev st_loop))).
Proof.
  destruct (run_loop_total self integrator kw (first_step kw) steps
              (initial_state self kw mem)) as (st_loop & Hloop).
  exists st_loop. eexists. split; [exact Hloop|]. split; [|split].
  - intros Hs. rewrite run_loop_zero in Hloop by assumption.
    injection Hloop as <-. reflexivity.
  - pose proof Hloop as Hl. rewrite run_loop_unfold in Hl.
    apply (for_each_events _ _ _ _ _ _ _ _ Hl).
    rewrite initial_state_unfold. constructor.
  - unfold simulate. rewrite simulate_run_unfold, Hloop. simpl bind.
    rewrite final_sync_spec. repeat split.
Qed.

(** C9: with [steps = 0] the log of the run holds the three final copies
    and nothing else (no kernel dispatch, no integrator call, no boundary
    call), and the displacement returned is the supplied [u], or the zero
    field when none is supplied. *)
Theorem zero_steps_no_calls (self : Model) (integrator : field -> field -> field)
    (kw : Kwargs) (mem : Uninit) :
  exists st,
    simulate_run self integrator 0 kw mem = inr st /\
    log st = [EvCopyDamage; EvCopyNlist; EvCopyNneigh] /\
    exists dmg conn,
      simulate self integrator 0 kw mem =
      inr (match u_init kw with
           | Some u0 => u0
           | None => field_zeros (nnodes self)
           end, dmg, conn).
Proof.
  eexists. split; [|split].
  - rewrite simulate_run_unfold, run_loop_zero by lia. simpl bind.
    apply final_sync_spec.
  - rewrite initial_state_unfold. reflexivity.
  - do 2 eexists. rewrite simulate_zero. destruct (u_init kw); reflexivity.
Qed.

(** C4: a run of zero steps started from a supplied connectivity pair
    returns that very pair. *)
Theorem connectivity_round_trip (self : Model)
    (integrator : field -> field -> field) (kw : Kwargs) (mem : Uninit)
    (conn : connectivity_t) :
  connectivity kw = Some conn ->
  exists u' dmg, simulate self integrator 0 kw mem = inr (u', dmg, conn).
Proof.
  intros Hc. do 2 eexists. rewrite simulate_zero, Hc. reflexivity.
Qed.

(** C10: [write = 0] disables snapshots exactly as [write = None] does:
    the two runs are the same, no snapshot is written, the write branch
    leaves every state as it is, and the run ends normally although
    [step % 0] would raise. *)
Theorem write_zero_disabled (self : Model) (integrator : field -> field -> field)
    (steps : Z) (kw : Kwargs) (mem : Uninit) :
  simulate_run self integrator steps (with_write (Some 0) kw) mem =
    simulate_run self integrator steps (with_write None kw) mem /\
  (exists st,
     simulate_run self integrator steps (with_write (Some 0) kw) mem = inr st /\
     snapshots (log st) = []) /\
  (forall wp t st, write_branch (Some 0) wp t st = inr st) /\
  (forall t, py_mod_val t (Some 0) = inl ZeroDivisionError).
Proof.
  split; [|split; [|split]].
  - rewrite !simulate_run_unfold, !run_loop_unfold.
    reflexivity.
  - destruct (run_loop_total self integrator (with_write (Some 0) kw)
                (first_step kw) steps
                (initial_state self (with_write (Some 0) kw) mem))
      as (st_loop & Hloop).
    rewrite simulate_run_unfold. simpl first_step. rewrite Hloop. simpl bind.
    rewrite final_sync_spec. eexists. split; [reflexivity|]. simpl log.
    rewrite run_loop_unfold in Hloop.
    apply snapshots_for_each in Hloop.
    rewrite snapshots_app, Hloop, initial_state_unfold. simpl.
    rewrite app_nil_r. clear Hloop.
    induction (py_range _ _) as [|t l IH]; [reflexivity | exact IH].
  - reflexivity.
  - reflexivity.
Qed.

Lemma py_range_split (a j n : Z) :
  0 <= j <= n ->
  py_range a (a + n) = py_range a (a + j) ++ py_range (a + j) (a + n).
Proof.
  intros Hj. rewrite !py_range_length. unfold py_range.
  replace (Z.to_nat n) with (Z.to_nat j + Z.to_nat (n - j))%nat by lia.
  rewrite seq_app, map_app.
  apply (f_equal (app (map (fun i : nat => a + Z.of_nat i) (seq 0 (Z.to_nat j))))).
  replace (a + n - (a + j)) with (n - j) by lia.
  replace (0 + Z.to_nat j)%nat with (Z.to_nat j + 0)%nat by lia.
  rewrite <- fmap_add_seq.
  change (map ?f (?g <$> ?l)) with (map f (map g l)).
  rewrite map_map. apply map_ext. intros i. lia.
Qed.

Lemma for_each_log (self : Model) (integrator : field -> field -> field)
    (bf : Model -> field -> Z -> field) (wr : option Z) (wp : path)
    (l : list Z) (st st' : state) :
  for_each (loop_body self integrator bf wr wp) l st = inr st' ->
  exists rest, log st' = log st ++ rest.
Proof.
  revert st. induction l as [|t l IH]; intros st; simpl.
  - intros [= <-]. exists []. rewrite app_nil_r. reflexivity.
  - unfold seq_action.
    destruct (loop_body_spec self integrator bf wr wp t st) as (st7 & -> & Hk).
    destruct (write_branch_spec wr wp t st7) as (st1 & -> & _ & _ & Hw).
    simpl. intros Hrest. destruct (IH _ Hrest) as (rest & ->).
    destruct Hk as (Hlog & _).
    destruct (snapshot_due wr t).
    + destruct Hw as (-> & _). rewrite Hlog. eexists.
      rewrite <- !app_assoc. reflexivity.
    + subst st1. rewrite Hlog. eexists. rewrite <- !app_assoc. reflexivity.
Qed.

(** C1: step [t] of a run starts in the state the earlier steps left,
    and performs, in this order, the force kernel on the current device
    coordinates, the copy of the force buffer, the integrator call on
    (u, force), the boundary call on (model, u, t), the refresh of the
    coordinate buffer from coords + u, the breaking kernel on the
    refreshed coordinates, and the damage kernel; only a snapshot may
    follow before the next step. *)
Theorem step_order (self : Model) (integrator : field -> field -> field)
    (steps : Z) (kw : Kwargs) (mem : Uninit) (k : Z) :
  0 <= k < steps ->
  let t := first_step kw + k in
  let bf := default (fun _ u _ => u) (boundary_function kw) in
  let wp := default default_write_path (write_path kw) in
  let init := initial_state self kw mem in
  exists st st7 st' st_end tail rest,
    run_loop self integrator kw (first_step kw) k init = inr st /\
    kernels_done self integrator bf t st st7 /\
    write_branch (write kw) wp t st7 = inr st' /\
    run_loop self integrator kw (first_step kw) (k + 1) init = inr st' /\
    log st' = log st ++ step_events t ++ tail /\
    (tail = [] \/
     exists d v,
       tail = [EvCopyDamage; EvWriteMesh (path_join wp (snapshot_name t)) d v]) /\
    simulate_run self integrator steps kw mem = inr st_end /\
    log st_end = log st' ++ rest.
Proof.
  intros Hk t bf wp init.
  destruct (run_loop_total self integrator kw (first_step kw) k init)
    as (st & Hst).
  destruct (loop_body_spec self integrator bf (write kw) wp t st)
    as (st7 & Hbody & Hdone).
  destruct (write_branch_spec (write kw) wp t st7)
    as (st' & Hwrite & _ & _ & Hw).
  assert (Hnext : run_loop self integrator kw (first_step kw) (k + 1) init
                  = inr st').
  { rewrite run_loop_succ, Hst by lia. simpl. fold bf wp t.
    rewrite Hbody. exact Hwrite. }
  assert (Hend : exists st_end rest,
             simulate_run self integrator steps kw mem = inr st_end /\
             log st_end = log st' ++ rest).
  { rewrite simulate_run_unfold. fold init.
    pose proof Hnext as Hn. rewrite run_loop_unfold in Hn.
    rewrite run_loop_unfold,
      (py_range_split (first_step kw) (k + 1) steps) by lia.
    rewrite for_each_app, Hn. simpl bind at 2.
    destruct (for_each_total self integrator bf (write kw) wp
                (py_range (first_step kw + (k + 1)) (first_step kw + steps)) st')
      as (st_last & Hlast).
    fold bf wp. rewrite Hlast. simpl bind.
    rewrite final_sync_spec.
    apply for_each_log in Hlast. destruct Hlast as (rest & Hrest).
    do 2 eexists. split; [reflexivity|]. simpl log.
    rewrite Hrest, <- app_assoc. reflexivity. }
  destruct Hend as (st_end & rest & Hrun & Hlog).
  pose proof Hdone as (Hlog7 & _).
  assert (Htail : exists tail,
             log st' = log st ++ step_events t ++ tail /\
             (tail = [] \/
              exists d v,
                tail = [EvCopyDamage;
                        EvWriteMesh (path_join wp (snapshot_name t)) d v])).
  { destruct (snapshot_due (write kw) t).
    - destruct Hw as (Hlw & _). eexists. split.
      + rewrite Hlw, Hlog7, <- app_assoc. reflexivity.
      + right. eauto.
    - subst st'. exists []. split.
      + rewrite Hlog7, app_nil_r. reflexivity.
      + left. reflexivity. }
  destruct Htail as (tail & Htl & Hshape).
  exists st, st7, st', st_end, tail, rest.
  exact (conj Hst (conj Hdone (conj Hwrite (conj Hnext
          (conj Htl (conj Hshape (conj Hrun Hlog))))))).
Qed.

(** C7: with a write interval [w] configured, the snapshots of a run are
    those of the steps [t] with [t mod w = 0], in order, each at the path
    [write_path / "U_<t>.vtk"], and different steps get different names;
    the write branch leaves the displacement, the host connectivity and
    every device buffer as they were. *)
Theorem snapshot_write_frame (self : Model)
    (integrator : field -> field -> field) (steps : Z) (kw : Kwargs)
    (mem : Uninit) (w : Z) :
  write kw = Some w ->
  w <> 0 ->
  let wp := default default_write_path (write_path kw) in
  (exists st,
     simulate_run self integrator steps kw mem = inr st /\
     snapshots (log st) =
     map (fun t => path_join wp (snapshot_name t))
       (List.filter (fun t => t mod w =? 0)
          (py_range (first_step kw) (first_step kw + steps)))) /\
  (forall t st,
     exists st',
       write_branch (Some w) wp t st = inr st' /\
       dev st' = dev st /\
       (u (host st'), nlist (host st'), n_neigh (host st'), force (host st')) =
       (u (host st), nlist (host st), n_neigh (host st), force (host st))) /\
  (forall t1 t2, snapshot_name t1 = snapshot_name t2 -> t1 = t2).
Proof.
  intros Hw Hw0 wp. split; [|split].
  - destruct (run_loop_total self integrator kw (first_step kw) steps
                (initial_state self kw mem)) as (st_loop & Hloop).
    rewrite simulate_run_unfold, Hloop. simpl bind.
    rewrite final_sync_spec. eexists. split; [reflexivity|]. simpl log.
    rewrite run_loop_unfold in Hloop. apply snapshots_for_each in Hloop.
    rewrite snapshots_app, Hloop, initial_state_unfold. simpl.
    rewrite app_nil_r, Hw. fold wp. f_equal.
    apply filter_ext. intros t. simpl.
    destruct (w =? 0) eqn:E; [lia | reflexivity].
  - intros t st.
    destruct (write_branch_spec (Some w) wp t st) as (st' & H1 & H2 & H3 & _).
    eauto.
  - exact snapshot_name_inj.
Qed.

End Properties.

(** ** The breaking kernel, one row *)

Section Row.

Variable broken : Z -> bool.

Lemma swap_to_end_below (row : list Z) (neigh last k : nat) :
  (k < neigh)%nat -> (neigh <= last)%nat ->
  Kernel.swap_to_end row neigh last !! k = row !! k.
Proof.
  intros Hk Hl. unfold Kernel.swap_to_end.
  destruct (row !! neigh) as [a|]; [|reflexivity].
  destruct (row !! last) as [b|]; [|reflexivity].
  rewrite !list_lookup_insert_ne by lia. reflexivity.
Qed.

Lemma settled_swap (row : list Z) (neigh last : nat) :
  (neigh <= last)%nat ->
  Kernel.settled broken row neigh ->
  Kernel.settled broken (Kernel.swap_to_end row neigh last) neigh.
Proof.
  intros Hl Hs k j Hk Hj. rewrite swap_to_end_below in Hj by assumption.
  exact (Hs k j Hk Hj).
Qed.

Lemma settled_next (row : list Z) (neigh : nat) :
  Kernel.settled broken row neigh ->
  (forall j, row !! neigh = Some j -> broken j = false) ->
  Kernel.settled broken row (S neigh).
Proof.
  intros Hs Hn k j Hk Hj.
  destruct (decide (k = neigh)) as [->|Hne].
  - exact (Hn j Hj).
  - apply (Hs k j); [lia | exact Hj].
Qed.

(** What the scan leaves live is settled. *)
Lemma scan_row_settles (rem neigh : nat) (row : list Z) :
  Kernel.settled broken row neigh ->
  Kernel.settled broken (Kernel.scan_row broken rem neigh row).1
    (Kernel.scan_row broken rem neigh row).2.
Proof.
  revert neigh row. induction rem as [|rem IH]; intros neigh row Hs; simpl.
  - exact Hs.
  - destruct (row !! neigh) as [j|] eqn:Hj.
    + destruct (broken j) eqn:Hb.
      * apply IH, settled_swap; [lia | exact Hs].
      * apply IH, settled_next; [exact Hs|]. intros j' Hj'. congruence.
    + apply IH, settled_next; [exact Hs|]. intros j' Hj'. congruence.
Qed.

(** A settled row is scanned without a change. *)
Lemma scan_row_fixed (rem neigh : nat) (row : list Z) :
  Kernel.settled broken row (neigh + rem) ->
  Kernel.scan_row broken rem neigh row = (row, (neigh + rem)%nat).
Proof.
  revert neigh. induction rem as [|rem IH]; intros neigh Hs; simpl.
  - f_equal. lia.
  - replace (neigh + S rem)%nat with (S neigh + rem)%nat in * by lia.
    destruct (row !! neigh) as [j|] eqn:Hj.
    + rewrite (Hs neigh j) by (lia || assumption). apply IH, Hs.
    + apply IH, Hs.
Qed.

Lemma scan_row_count (rem neigh : nat) (row : list Z) :
  (neigh <= (Kernel.scan_row broken rem neigh row).2 <= neigh + rem)%nat.
Proof.
  revert neigh row. induction rem as [|rem IH]; intros neigh row; simpl.
  - lia.
  - destruct (row !! neigh) as [j|].
    + destruct (broken j).
      * specialize (IH neigh (Kernel.swap_to_end row neigh (neigh + rem))). lia.
      * specialize (IH (S neigh) row). lia.
    + specialize (IH (S neigh) row). lia.
Qed.

Lemma break_row_idempotent (row : list Z) (cnt : Z) :
  Kernel.break_row broken (Kernel.break_row broken row cnt).1
    (Kernel.break_row broken row cnt).2
  = Kernel.break_row broken row cnt.
Proof.
  unfold Kernel.break_row at 2 3 4.
  destruct (cnt <? 0) eqn:Hc; simpl.
  - unfold Kernel.break_row. rewrite Hc. reflexivity.
  - pose proof (scan_row_settles (Z.to_nat cnt) 0 row) as Hs.
    destruct (Kernel.scan_row broken (Z.to_nat cnt) 0 row) as [row' n] eqn:Hscan.
    simpl in *. unfold Kernel.break_row.
    replace (Z.of_nat n <? 0) with false by (symmetry; apply Z.ltb_ge; lia).
    rewrite Nat2Z.id, scan_row_fixed.
    + reflexivity.
    + apply Hs. intros k j Hk. lia.
Qed.

Lemma break_row_count (row : list Z) (cnt : Z) :
  (Kernel.break_row broken row cnt).2 <= cnt /\
  (0 <= cnt -> 0 <= (Kernel.break_row broken row cnt).2).
Proof.
  unfold Kernel.break_row. destruct (cnt <? 0) eqn:Hc; simpl; [lia|].
  pose proof (scan_row_count (Z.to_nat cnt) 0 row) as Hn.
  destruct (Kernel.scan_row broken (Z.to_nat cnt) 0 row) as [row' n].
  simpl in *. lia.
Qed.

End Row.

(** ** The kernels over all nodes *)

Section Dispatch.

Context {backend : Backend}.

Lemma break_counts_lookup (nn : nat) (r r0 : field) (nl : list (list Z))
    (cnt : list Z) (mx : Z) (crit : Q) (i : nat) (c' : Z) :
  (break_bonds_kernel nn r r0 nl cnt mx crit).2 !! i = Some c' ->
  exists c, cnt !! i = Some c /\ c' <= c /\ (0 <= c -> 0 <= c').
Proof.
  unfold break_bonds_kernel. simpl. rewrite list_lookup_imap.
  destruct (cnt !! i) as [c|]; simpl; [|discriminate].
  intros [= <-]. exists c. split; [reflexivity|].
  destruct (i <? nn)%nat; [|lia].
  destruct (nl !! i) as [row|]; [|lia].
  apply break_row_count.
Qed.

Lemma break_counts_length (nn : nat) (r r0 : field) (nl : list (list Z))
    (cnt : list Z) (mx : Z) (crit : Q) :
  length (break_bonds_kernel nn r r0 nl cnt mx crit).2 = length cnt.
Proof. unfold break_bonds_kernel. simpl. apply length_imap. Qed.

(** No live count grows. *)
Lemma break_counts_le (nn : nat) (r r0 : field) (nl : list (list Z))
    (cnt : list Z) (mx : Z) (crit : Q) :
  Forall2 Z.le (break_bonds_kernel nn r r0 nl cnt mx crit).2 cnt.
Proof.
  apply Forall2_same_length_lookup_2; [apply break_counts_length|].
  intros i c' c Hc' Hc.
  destruct (break_counts_lookup _ _ _ _ _ _ _ _ _ Hc') as (c0 & Hc0 & Hle & _).
  congruence.
Qed.

(** The breaking kernel keeps 0 <= n_neigh[i] <= family[i] <= max. *)
Lemma break_counts_ok (nn : nat) (r r0 : field) (nl : list (list Z))
    (cnt fam : list Z) (mx mx' : Z) (crit : Q) :
  counts_ok mx' fam cnt ->
  counts_ok mx' fam (break_bonds_kernel nn r r0 nl cnt mx crit).2.
Proof.
  unfold counts_ok. intros Hok.
  apply Forall2_same_length_lookup_2.
  - rewrite break_counts_length. exact (Forall2_length _ _ _ Hok).
  - intros i c' f Hc' Hf.
    destruct (break_counts_lookup _ _ _ _ _ _ _ _ _ Hc') as (c & Hc & Hle & Hpos).
    pose proof (Forall2_lookup_lr _ _ _ _ _ _ Hok Hc Hf) as Hcf. simpl in Hcf.
    lia.
Qed.

Lemma break_bonds_kernel_idempotent (nn : nat) (r r0 : field)
    (nl : list (list Z)) (cnt : list Z) (mx : Z) (crit : Q) :
  break_bonds_kernel nn r r0
    (break_bonds_kernel nn r r0 nl cnt mx crit).1
    (break_bonds_kernel nn r r0 nl cnt mx crit).2 mx crit
  = break_bonds_kernel nn r r0 nl cnt mx crit.
Proof.
  unfold break_bonds_kernel. simpl. f_equal.
  - apply list_eq. intros i. rewrite !list_lookup_imap.
    destruct (nl !! i) as [row|]; simpl; [|reflexivity].
    destruct (i <? nn)%nat; [|reflexivity].
    destruct (cnt !! i) as [c|]; simpl; [|reflexivity].
    rewrite break_row_idempotent. reflexivity.
  - apply list_eq. intros i. rewrite !list_lookup_imap.
    destruct (cnt !! i) as [c|]; simpl; [|reflexivity].
    destruct (i <? nn)%nat; [|reflexivity].
    destruct (nl !! i) as [row|]; simpl; [|reflexivity].
    rewrite break_row_idempotent. reflexivity.
Qed.

Lemma counts_le_refl (l : list Z) : Forall2 Z.le l l.
Proof.
  apply Forall2_same_length_lookup_2; [reflexivity|].
  intros i x y Hx Hy. rewrite Hx in Hy. injection Hy as ->. lia.
Qed.

Lemma counts_le_trans (a b c : list Z) :
  Forall2 Z.le a b -> Forall2 Z.le b c -> Forall2 Z.le a c.
Proof.
  intros Hab Hbc. apply Forall2_same_length_lookup_2.
  - rewrite (Forall2_length _ _ _ Hab). exact (Forall2_length _ _ _ Hbc).
  - intros i x z Hx Hz.
    destruct (Forall2_lookup_l _ _ _ _ _ Hab Hx) as (y & Hy & Hxy).
    pose proof (Forall2_lookup_lr _ _ _ _ _ _ Hbc Hy Hz). lia.
Qed.

(** *** The damage kernel *)

Lemma damage_node_bounds (f n : Z) :
  0 <= n <= f ->
  (0 <= Kernel.damage_node f n <= 1)%Q /\
  ((Kernel.damage_node f n == 0)%Q <-> n = f).
Proof.
  intros Hn. unfold Kernel.damage_node.
  destruct (f =? 0) eqn:Hf.
  - assert (f = 0) by lia. subst f. repeat split.
    + apply Qle_refl.
    + discriminate.
    + lia.
  - destruct f as [|p|p]; try lia.
    unfold Qdiv, Qmult, Qinv, inject_Z, Qle, Qeq. simpl.
    rewrite Pos.mul_1_l. split; [split; lia | split; intros H; lia].
Qed.

Lemma damage_kernel_length (nn : nat) (cnt fam : list Z) (dmg : list Q) :
  length (damage_kernel nn cnt fam dmg) = length dmg.
Proof. apply length_imap. Qed.

Lemma damage_kernel_lookup (nn : nat) (cnt fam : list Z) (dmg : list Q)
    (i : nat) (d : Q) :
  length dmg = length cnt -> length cnt = length fam -> length fam = nn ->
  damage_kernel nn cnt fam dmg !! i = Some d ->
  exists n f,
    cnt !! i = Some n /\ fam !! i = Some f /\ d = Kernel.damage_node f n.
Proof.
  intros Hd Hc Hf. unfold damage_kernel. rewrite list_lookup_imap.
  destruct (dmg !! i) as [d0|] eqn:Hd0; simpl; [|discriminate].
  apply lookup_lt_Some in Hd0.
  destruct (lookup_lt_is_Some_2 cnt i) as (n & Hn); [lia|].
  destruct (lookup_lt_is_Some_2 fam i) as (f & Hfi); [lia|].
  rewrite Hn, Hfi.
  replace (i <? nn)%nat with true by (symmetry; apply Nat.ltb_lt; lia).
  intros [= <-]. eauto.
Qed.

End Dispatch.

(** ** Connectivity along a run *)

Section Invariants.

Context {backend : Backend}.

Variable self : Model.
Variable integrator : field -> field -> field.

Lemma loop_body_device (bf : Model -> field -> Z -> field) (wr : option Z)
    (wp : path) (t : Z) (st st' : state) :
  loop_body self integrator bf wr wp t st = inr st' ->
  family_d (dev st') = family_d (dev st) /\
  n_neigh_d (dev st') =
    (break_bonds_kernel (nnodes self) (r_d (dev st')) (r0_d (dev st))
       (nlist_d (dev st)) (n_neigh_d (dev st)) (max_neighbours self)
       (critical_strain self)).2 /\
  damage_d (dev st') =
    damage_kernel (nnodes self) (n_neigh_d (dev st')) (family_d (dev st))
      (damage_d (dev st)).
Proof.
  destruct (loop_body_spec self integrator bf wr wp t st) as (st7 & -> & Hk).
  destruct (write_branch_spec wr wp t st7) as (st1 & -> & Hdev & _).
  intros [= <-]. rewrite Hdev.
  destruct Hk as (_ & _ & _ & _ & _ & Hbreak & Hdmg & Hconst & _).
  injection Hconst as _ _ Hfam. injection Hbreak as _ Hcnt.
  rewrite Hcnt at 1. rewrite Hfam, Hdmg. repeat split.
Qed.

(** What every stretch of the loop keeps: the family counts, the order
    on the live counts, their bounds, and the size of the damage
    buffer. *)
Lemma for_each_device (bf : Model -> field -> Z -> field) (wr : option Z)
    (wp : path) (l : list Z) (st st' : state) :
  for_each (loop_body self integrator bf wr wp) l st = inr st' ->
  family_d (dev st') = family_d (dev st) /\
  Forall2 Z.le (n_neigh_d (dev st')) (n_neigh_d (dev st)) /\
  length (damage_d (dev st')) = length (damage_d (dev st)) /\
  (forall mx fam,
     counts_ok mx fam (n_neigh_d (dev st)) ->
     counts_ok mx fam (n_neigh_d (dev st'))).
Proof.
  revert st. induction l as [|t l IH]; intros st; simpl.
  - intros [= <-]. repeat split; auto using counts_le_refl.
  - unfold seq_action.
    destruct (loop_body self integrator bf wr wp t st) as [e|st1] eqn:Hb;
      simpl; [discriminate|].
    intros Hrest. destruct (IH _ Hrest) as (Hfam & Hle & Hlen & Hok).
    destruct (loop_body_device _ _ _ _ _ _ Hb) as (Hfam1 & Hcnt1 & Hdmg1).
    split; [congruence|]. split; [|split].
    + eapply counts_le_trans; [exact Hle|].
      rewrite Hcnt1. apply break_counts_le.
    + rewrite Hlen, Hdmg1. apply damage_kernel_length.
    + intros mx fam H0. apply Hok. rewrite Hcnt1.
      apply break_counts_ok, H0.
Qed.

Lemma initial_device (kw : Kwargs) (mem : Uninit) :
  let st := initial_state self kw mem in
  family_d (dev st) = family self /\
  n_neigh_d (dev st) =
    (default (initial_connectivity self) (connectivity kw)).2 /\
  length (damage_d (dev st)) = length (n_neigh_d (dev st)).
Proof.
  rewrite initial_state_unfold. simpl. repeat split.
  unfold np_empty. rewrite length_map, length_seq. reflexivity.
Qed.

(** Two points of one run: the later one is reached from the earlier
    one by the steps in between. *)
Lemma run_loop_between (kw : Kwargs) (first j k : Z) (st0 : state) :
  0 <= j <= k ->
  exists st_j st_k,
    run_loop self integrator kw first j st0 = inr st_j /\
    run_loop self integrator kw first k st0 = inr st_k /\
    for_each
      (loop_body self integrator
         (default (fun _ u _ => u) (boundary_function kw)) (write kw)
         (default default_write_path (write_path kw)))
      (py_range (first + j) (first + k)) st_j = inr st_k.
Proof.
  intros Hjk.
  destruct (run_loop_total self integrator kw first j st0) as (st_j & Hj).
  exists st_j. pose proof Hj as Hj'. rewrite run_loop_unfold in Hj'.
  rewrite (run_loop_unfold _ _ kw first k),
    (py_range_split first j k), for_each_app, Hj' by assumption.
  simpl bind.
  destruct (for_each_total self integrator
              (default (fun _ u _ => u) (boundary_function kw)) (write kw)
              (default default_write_path (write_path kw))
              (py_range (first + j) (first + k)) st_j) as (st_k & Hk).
  exists st_k. auto.
Qed.

End Invariants.

Section Claims.

Context {backend : Backend}.

(** C5: the breaking kernel is idempotent: run on its own output with
    the coordinates unchanged it returns that output, so a second
    [_break_bonds] in a row breaks no bond and leaves the neighbour list,
    the live counts and all other buffers as the first one left them. *)
Theorem break_bonds_idempotent (self : Model) (st : state) :
  (forall nn r r0 nl cnt mx crit,
     break_bonds_kernel nn r r0
       (break_bonds_kernel nn r r0 nl cnt mx crit).1
       (break_bonds_kernel nn r r0 nl cnt mx crit).2 mx crit
     = break_bonds_kernel nn r r0 nl cnt mx crit) /\
  exists st1 st2,
    _break_bonds self st = inr st1 /\
    _break_bonds self st1 = inr st2 /\
    nlist_d (dev st2) = nlist_d (dev st1) /\
    n_neigh_d (dev st2) = n_neigh_d (dev st1) /\
    dev st2 = dev st1 /\
    host st2 = host st1.
Proof.
  split; [apply break_bonds_kernel_idempotent|].
  do 2 eexists. split; [reflexivity|]. split; [reflexivity|].
  cbn [dev host nlist_d n_neigh_d r_d r0_d set_connectivity_d].
  rewrite break_bonds_kernel_idempotent. repeat split.
Qed.

(** C6: in a run started from live counts with
    0 <= n_neigh[i] <= family[i] <= max_neighbours, these bounds hold
    after any number of steps and after every breaking kernel, the
    family counts on the device stay those of the model, and the live
    counts at a later point are nowhere above those at an earlier point;
    the counts returned satisfy the bounds as well. *)
Theorem counts_invariant (self : Model) (integrator : field -> field -> field)
    (steps : Z) (kw : Kwargs) (mem : Uninit) :
  let init := initial_state self kw mem in
  let mx := max_neighbours self in
  counts_ok mx (family self) (n_neigh_d (dev init)) ->
  (forall j k,
     0 <= j <= k ->
     exists st_j st_k,
       run_loop self integrator kw (first_step kw) j init = inr st_j /\
       run_loop self integrator kw (first_step kw) k init = inr st_k /\
       family_d (dev st_k) = family self /\
       counts_ok mx (family self) (n_neigh_d (dev st_k)) /\
       Forall2 Z.le (n_neigh_d (dev st_k)) (n_neigh_d (dev st_j))) /\
  (forall st,
     counts_ok mx (family_d (dev st)) (n_neigh_d (dev st)) ->
     exists st',
       _break_bonds self st = inr st' /\
       family_d (dev st') = family_d (dev st) /\
       counts_ok mx (family_d (dev st')) (n_neigh_d (dev st')) /\
       Forall2 Z.le (n_neigh_d (dev st')) (n_neigh_d (dev st))) /\
  exists st_end,
    simulate_run self integrator steps kw mem = inr st_end /\
    counts_ok mx (family self) (n_neigh (host st_end)) /\
    Forall2 Z.le (n_neigh (host st_end)) (n_neigh_d (dev init)).
Proof.
  intros init mx Hinit.
  destruct (initial_device self kw mem) as (Hfam0 & _ & _). fold init in Hfam0.
  split; [|split].
  - intros j k Hjk.
    destruct (run_loop_between self integrator kw (first_step kw) j k init Hjk)
      as (st_j & st_k & Hj & Hk & Hjk').
    exists st_j, st_k. split; [exact Hj|]. split; [exact Hk|].
    pose proof Hk as Hk'. rewrite run_loop_unfold in Hk'.
    destruct (for_each_device self integrator _ _ _ _ _ _ Hk')
      as (Hfam & _ & _ & Hok).
    destruct (for_each_device self integrator _ _ _ _ _ _ Hjk')
      as (_ & Hle & _).
    split; [congruence|]. split; [apply Hok, Hinit | exact Hle].
  - intros st Hst. eexists. split; [reflexivity|].
    cbn [dev family_d n_neigh_d set_connectivity_d].
    split; [reflexivity|]. split.
    + apply break_counts_ok, Hst.
    + apply break_counts_le.
  - destruct (run_loop_total self integrator kw (first_step kw) steps init)
      as (st_loop & Hloop).
    rewrite simulate_run_unfold. fold init. rewrite Hloop. simpl bind.
    rewrite final_sync_spec. eexists. split; [reflexivity|]. simpl.
    rewrite run_loop_unfold in Hloop.
    destruct (for_each_device self integrator _ _ _ _ _ _ Hloop)
      as (_ & Hle & _ & Hok).
    split; [apply Hok, Hinit | exact Hle].
Qed.

(** After at least one step, from live counts within their bounds and
    arrays of [nnodes] entries, every damage value returned is
    (family - n_neigh) / family of the counts returned, lies in [0, 1]
    and is 0 exactly when the two counts agree. *)
Lemma damage_in_range_after_steps (self : Model)
    (integrator : field -> field -> field) (steps : Z) (kw : Kwargs)
    (mem : Uninit) :
  1 <= steps ->
  length (family self) = nnodes self ->
  counts_ok (max_neighbours self) (family self)
    (n_neigh_d (dev (initial_state self kw mem))) ->
  exists u' dmg nl cnt,
    simulate self integrator steps kw mem = inr (u', dmg, (nl, cnt)) /\
    forall i d,
      dmg !! i = Some d ->
      exists n f,
        cnt !! i = Some n /\ family self !! i = Some f /\
        (0 <= d <= 1)%Q /\ ((d == 0)%Q <-> n = f).
Proof.
  intros Hsteps Hlen Hinit.
  set (init := initial_state self kw mem) in *.
  destruct (initial_device self kw mem) as (Hfam0 & _ & Hdl0).
  fold init in Hfam0, Hdl0.
  destruct (run_loop_total self integrator kw (first_step kw) (steps - 1) init)
    as (st & Hst).
  pose proof Hst as Hst'. rewrite run_loop_unfold in Hst'.
  destruct (for_each_device self integrator _ _ _ _ _ _ Hst')
    as (Hfam & Hle & Hdl & Hok).
  destruct (loop_body_total self integrator
              (default (fun _ u _ => u) (boundary_function kw)) (write kw)
              (default default_write_path (write_path kw))
              (first_step kw + (steps - 1)) st) as (st' & Hbody).
  destruct (loop_body_device self integrator _ _ _ _ _ _ Hbody)
    as (Hfam' & Hcnt' & Hdmg').
  assert (Hrun : run_loop self integrator kw (first_step kw) steps init
                 = inr st').
  { replace steps with (steps - 1 + 1) at 1 by lia.
    rewrite run_loop_succ, Hst by lia. exact Hbody. }
  unfold simulate. rewrite simulate_run_unfold. fold init.
  rewrite Hrun.
  change (bind (inr st') final_sync) with (final_sync st').
  rewrite final_sync_spec.
  cbn [bind returned host u damage nlist n_neigh set_n_neigh set_nlist
       set_damage].
  do 4 eexists. split; [reflexivity|].
  intros i d Hd. rewrite Hdmg' in Hd.
  assert (Hok' : counts_ok (max_neighbours self) (family self)
                   (n_neigh_d (dev st'))).
  { rewrite Hcnt'. apply break_counts_ok, Hok, Hinit. }
  pose proof (Forall2_length _ _ _ Hok') as Hl'.
  pose proof (Forall2_length _ _ _ Hle) as Hl.
  pose proof (Forall2_length _ _ _ Hinit) as Hl0.
  apply damage_kernel_lookup in Hd; [|congruence..].
  destruct Hd as (n & f & Hn & Hf & ->).
  rewrite Hfam, Hfam0 in Hf.
  exists n, f. split; [exact Hn|]. split; [exact Hf|].
  apply damage_node_bounds.
  pose proof (Forall2_lookup_lr _ _ _ _ _ _ Hok' Hn Hf) as H. simpl in H. lia.
Qed.

(** C8: a supplied context whose device 0 lacks double precision makes
    the constructor raise: no [ModelCL] is returned, and when
    [Model.__init__] succeeds and the context has a device the error is
    the [ValueError] of line 30. *)
Theorem construction_rejects_no_double (A : Type)
    (Model_init : A -> result Model) (get_context : pyobj) (args : A)
    (c : Context) :
  (forall d, devices c !! 0%nat = Some d -> double_fp_support d = false) ->
  (exists e,
     ModelCL_init A Model_init get_context args (Some (PyContext c)) = inl e) /\
  (forall m d,
     Model_init args = inr m ->
     devices c !! 0%nat = Some d ->
     ModelCL_init A Model_init get_context args (Some (PyContext c))
     = inl ValueError).
Proof.
  intros Hno. unfold ModelCL_init, device0. split.
  - destruct (Model_init args) as [e|m]; simpl; [eauto|].
    destruct (devices c) as [|d ds]; simpl; [eauto|].
    rewrite (Hno d) by reflexivity. simpl. eauto.
  - intros m d -> Hd. simpl.
    destruct (devices c) as [|d' ds]; [discriminate|].
    injection Hd as ->. simpl. rewrite (Hno d) by reflexivity. reflexivity.
Qed.

End Claims.

(** ** The three-node chain *)

(** The scan swaps a broken bond with the last live one. *)
Example break_row_swaps :
  Kernel.break_row (fun j => j =? 5) [5; 6; 7; 8] 3 = ([7; 6; 5; 8], 2).
Proof. reflexivity. Qed.

(** Three steps of the chain, the last node pulled by one more unit
    each step: it loses both bonds, its neighbours one each. *)
Example chain_three_steps :
  simulate Line.chain Line.euler 3 Line.kwargs (Line.memory 7) =
  inr ([0; 0; 3]%Q, [1 # 2; 1 # 2; 2 # 2]%Q,
       ([[1; 2]; [0; 2]; [0; 1]], [1; 1; 0])).
Proof. reflexivity. Qed.

(** C3: with [steps = 0] the damage array returned is what the damage
    buffer was allocated with: on the chain, with memory holding 7, node 0
    has n_neigh = family = 2 and yet damage 7, neither 0 nor at most 1. *)
Theorem damage_uninitialised_at_zero_steps :
  simulate Line.chain Line.euler 0 Line.kwargs (Line.memory 7) =
    inr ([0; 0; 0]%Q, [7; 7; 7]%Q, ([[1; 2]; [0; 2]; [0; 1]], [2; 2; 2])) /\
  family Line.chain !! 0%nat = Some 2 /\
  ~ (7 <= 1)%Q /\ ~ (7 == 0)%Q.
Proof.
  split; [reflexivity|]. split; [reflexivity|].
  split; intros H; vm_compute in H; congruence.
Qed.

Lemma step_order_witness :
  0 <= 1 < 3 /\
  exists st st' tail,
    run_loop Line.chain Line.euler Line.kwargs 1 1
      (initial_state Line.chain Line.kwargs (Line.memory 0)) = inr st /\
    log st' = log st ++ step_events 2 ++ tail.
Proof.
  pose proof (step_order Line.chain Line.euler 3 Line.kwargs (Line.memory 0) 1)
    as H.
  destruct H as (st & st7 & st' & st_end & tail & rest & H1 & _ & _ & _ & H5 & _).
  - lia.
  - split; [lia|]. exists st, st', tail. split; assumption.
Defined.

Lemma connectivity_round_trip_witness :
  connectivity Line.resumed = Some ([[1; 2]; [0; 2]; [0; 1]], [1; 1; 0]) /\
  exists u' dmg,
    simulate Line.chain Line.euler 0 Line.resumed (Line.memory 0) =
    inr (u', dmg, ([[1; 2]; [0; 2]; [0; 1]], [1; 1; 0])).
Proof.
  split; [reflexivity|].
  apply (connectivity_round_trip Line.chain Line.euler Line.resumed
           (Line.memory 0)).
  reflexivity.
Defined.

Lemma counts_invariant_witness :
  counts_ok 2 [2; 2; 2] [2; 2; 2] /\
  exists st_end,
    simulate_run Line.chain Line.euler 3 Line.kwargs (Line.memory 0)
      = inr st_end /\
    counts_ok 2 [2; 2; 2] (n_neigh (host st_end)).
Proof.
  pose proof (counts_invariant Line.chain Line.euler 3 Line.kwargs
                (Line.memory 0)) as H.
  assert (H0 : counts_ok 2 [2; 2; 2] [2; 2; 2])
    by (unfold counts_ok; repeat constructor; lia).
  destruct H as (_ & _ & st_end & Hrun & Hok & _).
  - exact H0.
  - split; [exact H0|]. exists st_end. split; assumption.
Defined.

Lemma snapshot_write_frame_witness :
  write Line.kwargs = Some 2 /\ 2 <> 0 /\
  exists st,
    simulate_run Line.chain Line.euler 3 Line.kwargs (Line.memory 0) = inr st /\
    snapshots (log st) = [["out"; "U_2.vtk"]%string].
Proof.
  pose proof (snapshot_write_frame Line.chain Line.euler 3 Line.kwargs
                (Line.memory 0) 2) as H.
  destruct H as ((st & Hrun & Hsnap) & _).
  - reflexivity.
  - lia.
  - split; [reflexivity|]. split; [lia|].
    exists st. split; [exact Hrun | exact Hsnap].
Defined.

Lemma construction_rejects_no_double_witness :
  (forall d, devices Line.no_double !! 0%nat = Some d ->
             double_fp_support d = false) /\
  exists e,
    ModelCL_init unit (fun _ => inr Line.chain) PyOther tt
      (Some (PyContext Line.no_double)) = inl e.
Proof.
  assert (H0 : forall d, devices Line.no_double !! 0%nat = Some d ->
                         double_fp_support d = false)
    by (intros d Hd; injection Hd as <-; reflexivity).
  split; [exact H0|].
  apply (construction_rejects_no_double unit (fun _ => inr Line.chain) PyOther
           tt Line.no_double).
  exact H0.
Defined.

(** * Further properties of the engine *)

Section Mechanics.

Context {backend : Backend}.

Variable self : Model.
Variable integrator : field -> field -> field.

(** The seven actions of a step read the mechanics of the state only,
    and the step number only through the boundary function. *)
Lemma kernels_done_mechanics (bf1 bf2 : Model -> field -> Z -> field)
    (t1 t2 : Z) (st1 st1' st2 st2' : state) :
  (forall v, bf1 self v t1 = bf2 self v t2) ->
  kernels_done self integrator bf1 t1 st1 st1' ->
  kernels_done self integrator bf2 t2 st2 st2' ->
  mechanics st1 = mechanics st2 ->
  mechanics st1' = mechanics st2'.
Proof.
  unfold kernels_done, mechanics.
  intros Hbf (_ & Hfd1 & Hf1 & Hu1 & Hr1 & Hb1 & _ & Hc1 & _)
         (_ & Hfd2 & Hf2 & Hu2 & Hr2 & Hb2 & _ & Hc2 & _) Hm.
  injection Hm as Hu Hr Hr0 Hv Hfam Hnl Hcnt.
  injection Hc1 as Hr01 Hv1 Hfam1. injection Hc2 as Hr02 Hv2 Hfam2.
  assert (Hforce : force (host st1') = force (host st2')) by congruence.
  assert (Hu' : u (host st1') = u (host st2')).
  { rewrite Hu1, Hu2, Hforce, Hu. apply Hbf. }
  assert (Hr' : r_d (dev st1') = r_d (dev st2')) by congruence.
  assert (Hb : (nlist_d (dev st1'), n_neigh_d (dev st1')) =
               (nlist_d (dev st2'), n_neigh_d (dev st2'))) by congruence.
  injection Hb as Hnl' Hcnt'. congruence.
Qed.

Lemma loop_body_mechanics (bf1 bf2 : Model -> field -> Z -> field)
    (wr1 wr2 : option Z) (wp1 wp2 : path) (t1 t2 : Z)
    (st1 st1' st2 st2' : state) :
  (forall v, bf1 self v t1 = bf2 self v t2) ->
  loop_body self integrator bf1 wr1 wp1 t1 st1 = inr st1' ->
  loop_body self integrator bf2 wr2 wp2 t2 st2 = inr st2' ->
  mechanics st1 = mechanics st2 ->
  mechanics st1' = mechanics st2'.
Proof.
  intros Hbf.
  destruct (loop_body_spec self integrator bf1 wr1 wp1 t1 st1) as (sa & -> & Ha).
  destruct (loop_body_spec self integrator bf2 wr2 wp2 t2 st2) as (sb & -> & Hb).
  destruct (write_branch_spec wr1 wp1 t1 sa) as (sa' & -> & Hda & Hha & _).
  destruct (write_branch_spec wr2 wp2 t2 sb) as (sb' & -> & Hdb & Hhb & _).
  intros [= <-] [= <-] Hm.
  pose proof (kernels_done_mechanics _ _ _ _ _ _ _ _ Hbf Ha Hb Hm) as H.
  unfold mechanics in *. rewrite Hda, Hdb.
  injection Hha as Hua _ _ _. injection Hhb as Hub _ _ _.
  rewrite Hua, Hub. exact H.
Qed.

Lemma for_each_mechanics (bf1 bf2 : Model -> field -> Z -> field)
    (wr1 wr2 : option Z) (wp1 wp2 : path) (l1 l2 : list Z)
    (st1 st1' st2 st2' : state) :
  Forall2 (fun t1 t2 => forall v, bf1 self v t1 = bf2 self v t2) l1 l2 ->
  for_each (loop_body self integrator bf1 wr1 wp1) l1 st1 = inr st1' ->
  for_each (loop_body self integrator bf2 wr2 wp2) l2 st2 = inr st2' ->
  mechanics st1 = mechanics st2 ->
  mechanics st1' = mechanics st2'.
Proof.
  intros Hl. revert st1 st2.
  induction Hl as [|t1 t2 l1 l2 Hbf Hl IH]; intros st1 st2; simpl.
  - intros [= <-] [= <-] Hm. exact Hm.
  - unfold seq_action.
    destruct (loop_body self integrator bf1 wr1 wp1 t1 st1) as [e|sa] eqn:Ha;
      simpl; [discriminate|].
    destruct (loop_body self integrator bf2 wr2 wp2 t2 st2) as [e|sb] eqn:Hb;
      simpl; [discriminate|].
    intros H1 H2 Hm. apply (IH _ _ H1 H2).
    exact (loop_body_mechanics _ _ _ _ _ _ _ _ _ _ _ _ Hbf Ha Hb Hm).
Qed.

Lemma same_steps (bf : Model -> field -> Z -> field) (l : list Z) :
  Forall2 (fun t1 t2 => forall v, bf self v t1 = bf self v t2) l l.
Proof. induction l; constructor; auto. Qed.

(** The device coordinates follow the displacement, and the read-only
    buffers and the host copies of the connectivity stay as they are. *)
Lemma loop_body_coherent (bf : Model -> field -> Z -> field) (wr : option Z)
    (wp : path) (t : Z) (st st' : state) :
  loop_body self integrator bf wr wp t st = inr st' ->
  r_d (dev st') = field_add (coords self) (u (host st')) /\
  (r0_d (dev st'), volume_d (dev st'), family_d (dev st')) =
    (r0_d (dev st), volume_d (dev st), family_d (dev st)) /\
  (nlist (host st'), n_neigh (host st')) = (nlist (host st), n_neigh (host st)).
Proof.
  destruct (loop_body_spec self integrator bf wr wp t st) as (s7 & -> & Hk).
  destruct (write_branch_spec wr wp t s7) as (s' & -> & Hd & Hh & _).
  intros [= <-]. rewrite Hd.
  destruct Hk as (_ & _ & _ & _ & Hr & _ & _ & Hc & Hhost).
  injection Hh as Hu Hnl Hcnt _. injection Hhost as Hnl7 Hcnt7 _.
  rewrite Hu, Hnl, Hcnt, Hr, Hc, Hnl7, Hcnt7. repeat split.
Qed.

Lemma for_each_coherent (bf : Model -> field -> Z -> field) (wr : option Z)
    (wp : path) (l : list Z) (st st' : state) :
  for_each (loop_body self integrator bf wr wp) l st = inr st' ->
  r_d (dev st) = field_add (coords self) (u (host st)) ->
  r_d (dev st') = field_add (coords self) (u (host st')) /\
  (r0_d (dev st'), volume_d (dev st'), family_d (dev st')) =
    (r0_d (dev st), volume_d (dev st), family_d (dev st)) /\
  (nlist (host st'), n_neigh (host st')) = (nlist (host st), n_neigh (host st)).
Proof.
  revert st. induction l as [|t l IH]; intros st; simpl.
  - intros [= <-] H. repeat split. exact H.
  - unfold seq_action.
    destruct (loop_body self integrator bf wr wp t st) as [e|s1] eqn:Hb;
      simpl; [discriminate|].
    intros Hrest _.
    destruct (loop_body_coherent _ _ _ _ _ _ Hb) as (Hr1 & Hc1 & Hh1).
    destruct (IH _ Hrest Hr1) as (Hr & Hc & Hh).
    split; [exact Hr|]. split; congruence.
Qed.

(** What [simulate] returns, read off the state the loop ends in. *)
Lemma simulate_of_loop (steps : Z) (kw : Kwargs) (mem : Uninit) (st : state) :
  run_loop self integrator kw (first_step kw) steps (initial_state self kw mem)
    = inr st ->
  simulate self integrator steps kw mem =
  inr (u (host st), damage_d (dev st), (nlist_d (dev st), n_neigh_d (dev st))).
Proof.
  intros Hloop. unfold simulate. rewrite simulate_run_unfold, Hloop.
  change (bind (inr st) final_sync) with (final_sync st).
  rewrite final_sync_spec. reflexivity.
Qed.

Lemma initial_mechanics (kw : Kwargs) (mem : Uninit) :
  let u0 := default (field_zeros (nnodes self)) (u_init kw) in
  let conn := default (initial_connectivity self) (connectivity kw) in
  mechanics (initial_state self kw mem) =
  (u0, field_add (coords self) u0, coords self, volume self, family self,
   conn.1, conn.2).
Proof. rewrite initial_state_unfold. reflexivity. Qed.

(** X1: between the steps of a run the device coordinate buffer holds
    coords + u, the read-only buffers hold the model's coordinates,
    volumes and family counts, and the host copies of the neighbour list
    and the live counts still hold the initial connectivity. *)
Theorem run_coherent (kw : Kwargs) (mem : Uninit) (k : Z) :
  exists st,
    run_loop self integrator kw (first_step kw) k (initial_state self kw mem)
      = inr st /\
    r_d (dev st) = field_add (coords self) (u (host st)) /\
    (r0_d (dev st), volume_d (dev st), family_d (dev st)) =
      (coords self, volume self, family self) /\
    (nlist (host st), n_neigh (host st)) =
      default (initial_connectivity self) (connectivity kw).
Proof.
  destruct (run_loop_total self integrator kw (first_step kw) k
              (initial_state self kw mem)) as (st & Hst).
  exists st. split; [exact Hst|].
  rewrite run_loop_unfold in Hst.
  apply for_each_coherent in Hst.
  - destruct Hst as (Hr & Hc & Hh). rewrite Hr, Hc, Hh.
    rewrite initial_state_unfold. simpl.
    destruct (default (initial_connectivity self) (connectivity kw)).
    repeat split.
  - rewrite initial_state_unfold. reflexivity.
Qed.

End Mechanics.

Section Runs.

Context {backend : Backend}.

Variable self : Model.
Variable integrator : field -> field -> field.

Lemma for_each_damage (bf1 bf2 : Model -> field -> Z -> field)
    (wr1 wr2 : option Z) (wp1 wp2 : path) (l1 l2 : list Z)
    (st1 st1' st2 st2' : state) :
  Forall2 (fun t1 t2 => forall v, bf1 self v t1 = bf2 self v t2) l1 l2 ->
  for_each (loop_body self integrator bf1 wr1 wp1) l1 st1 = inr st1' ->
  for_each (loop_body self integrator bf2 wr2 wp2) l2 st2 = inr st2' ->
  mechanics st1 = mechanics st2 ->
  damage_d (dev st1) = damage_d (dev st2) ->
  damage_d (dev st1') = damage_d (dev st2').
Proof.
  intros Hl. revert st1 st2.
  induction Hl as [|t1 t2 l1 l2 Hbf Hl IH]; intros st1 st2; simpl.
  - intros [= <-] [= <-] _ Hd. exact Hd.
  - unfold seq_action.
    destruct (loop_body self integrator bf1 wr1 wp1 t1 st1) as [e|sa] eqn:Ha;
      simpl; [discriminate|].
    destruct (loop_body self integrator bf2 wr2 wp2 t2 st2) as [e|sb] eqn:Hb;
      simpl; [discriminate|].
    intros H1 H2 Hm Hd.
    pose proof (loop_body_mechanics self integrator _ _ _ _ _ _ _ _ _ _ _ _
                  Hbf Ha Hb Hm) as Hm'.
    apply (IH _ _ H1 H2 Hm').
    destruct (loop_body_device self integrator _ _ _ _ _ _ Ha) as (_ & _ & ->).
    destruct (loop_body_device self integrator _ _ _ _ _ _ Hb) as (_ & _ & ->).
    unfold mechanics in Hm, Hm'.
    injection Hm as _ _ _ _ Hfam _ _. injection Hm' as _ _ _ _ _ _ Hcnt.
    rewrite Hfam, Hcnt, Hd. reflexivity.
Qed.

Lemma Forall2_map_same {A B : Type} (P : B -> B -> Prop) (f g : A -> B)
    (l : list A) :
  (forall x, In x l -> P (f x) (g x)) -> Forall2 P (map f l) (map g l).
Proof.
  induction l as [|x l IH]; intros H; simpl; constructor.
  - apply H. left. reflexivity.
  - apply IH. intros y Hy. apply H. right. exact Hy.
Qed.

Lemma py_range_Forall2 (P : Z -> Z -> Prop) (a b k : Z) :
  (forall i, 0 <= i < k -> P (a + i) (b + i)) ->
  Forall2 P (py_range a (a + k)) (py_range b (b + k)).
Proof.
  intros H. rewrite !py_range_length. apply Forall2_map_same.
  intros i Hi. apply in_seq in Hi. apply H. lia.
Qed.

(** X2: a run of [n + m] steps returns the displacement and the
    connectivity that a run of [n] steps followed by a restart of [m]
    steps returns, the restart taking the returned displacement and
    connectivity and [first_step + n]; what the buffers of the restart
    are allocated with does not matter. *)
Theorem restart_continues (kw : Kwargs) (mem mem' : Uninit) (n m : Z) :
  0 <= n -> 0 <= m ->
  exists u1 d1 c1 u2 d2 d3 c2,
    simulate self integrator n kw mem = inr (u1, d1, c1) /\
    simulate self integrator m (restart kw u1 c1 n) mem' = inr (u2, d2, c2) /\
    simulate self integrator (n + m) kw mem = inr (u2, d3, c2).
Proof.
  intros Hn Hm.
  destruct (run_loop_between self integrator kw (first_step kw) n (n + m)
              (initial_state self kw mem)) as (st_n & st_k & Hrn & Hrk & Hbt);
    [lia|].
  set (kw' := restart kw (u (host st_n))
                (nlist_d (dev st_n), n_neigh_d (dev st_n)) n).
  destruct (run_loop_total self integrator kw' (first_step kw') m
              (initial_state self kw' mem')) as (st2 & Hr2).
  exists (u (host st_n)), (damage_d (dev st_n)),
    (nlist_d (dev st_n), n_neigh_d (dev st_n)),
    (u (host st2)), (damage_d (dev st2)), (damage_d (dev st_k)),
    (nlist_d (dev st2), n_neigh_d (dev st2)).
  split; [exact (simulate_of_loop self integrator _ _ _ _ Hrn)|].
  split; [exact (simulate_of_loop self integrator _ _ _ _ Hr2)|].
  rewrite (simulate_of_loop self integrator _ _ _ _ Hrk).
  assert (Hmech : mechanics st2 = mechanics st_k).
  { rewrite run_loop_unfold in Hr2. rewrite run_loop_unfold in Hrn.
    apply for_each_coherent in Hrn; [|rewrite initial_state_unfold; reflexivity].
    destruct Hrn as (Hr & Hc & _).
    rewrite initial_state_unfold in Hc. simpl in Hc.
    injection Hc as Hr0 Hv Hfam.
    replace (first_step kw + (n + m)) with (first_step kw' + m) in Hbt
      by (simpl; lia).
    apply (for_each_mechanics self integrator _ _ _ _ _ _ _ _ _ _ _ _
             (same_steps self _ _) Hr2 Hbt).
    rewrite initial_mechanics. unfold mechanics. simpl.
    rewrite Hr, Hr0, Hv, Hfam. reflexivity. }
  unfold mechanics in Hmech. injection Hmech as -> _ _ _ _ -> ->.
  reflexivity.
Qed.

(** X3: the displacement and the connectivity a run returns do not
    depend on what its never-initialised buffers (the host and device
    damage and force arrays) are allocated with. *)
Theorem result_ignores_uninitialised_memory (steps : Z) (kw : Kwargs)
    (mem1 mem2 : Uninit) :
  exists u' d1 d2 c,
    simulate self integrator steps kw mem1 = inr (u', d1, c) /\
    simulate self integrator steps kw mem2 = inr (u', d2, c).
Proof.
  destruct (run_loop_total self integrator kw (first_step kw) steps
              (initial_state self kw mem1)) as (st1 & H1).
  destruct (run_loop_total self integrator kw (first_step kw) steps
              (initial_state self kw mem2)) as (st2 & H2).
  rewrite (simulate_of_loop self integrator _ _ _ _ H1),
    (simulate_of_loop self integrator _ _ _ _ H2).
  rewrite run_loop_unfold in H1, H2.
  assert (Hmech : mechanics st1 = mechanics st2).
  { apply (for_each_mechanics self integrator _ _ _ _ _ _ _ _ _ _ _ _
             (same_steps self _ _) H1 H2).
    rewrite !initial_mechanics. reflexivity. }
  unfold mechanics in Hmech. injection Hmech as -> _ _ _ _ -> ->.
  eauto 10.
Qed.

(** X4: snapshots are observation only: whatever [write] and
    [write_path] are, [simulate] returns the same displacement, damage
    and connectivity. *)
Theorem result_ignores_output_options (steps : Z) (kw : Kwargs)
    (mem : Uninit) (w : option Z) (wp : option path) :
  simulate self integrator steps (with_output w wp kw) mem =
  simulate self integrator steps kw mem.
Proof.
  destruct (run_loop_total self integrator kw (first_step kw) steps
              (initial_state self kw mem)) as (st1 & H1).
  destruct (run_loop_total self integrator (with_output w wp kw)
              (first_step (with_output w wp kw)) steps
              (initial_state self (with_output w wp kw) mem)) as (st2 & H2).
  rewrite (simulate_of_loop self integrator _ _ _ _ H1),
    (simulate_of_loop self integrator _ _ _ _ H2).
  rewrite run_loop_unfold in H1, H2.
  assert (Hinit : initial_state self (with_output w wp kw) mem =
                  initial_state self kw mem)
    by (rewrite !initial_state_unfold; reflexivity).
  rewrite Hinit in H2.
  pose proof (for_each_mechanics self integrator _ _ _ _ _ _ _ _ _ _ _ _
                (same_steps self _ _) H2 H1 eq_refl) as Hmech.
  pose proof (for_each_damage _ _ _ _ _ _ _ _ _ _ _ _
                (same_steps self _ _) H2 H1 eq_refl eq_refl) as Hdmg.
  unfold mechanics in Hmech. injection Hmech as -> _ _ _ _ -> ->.
  rewrite Hdmg. reflexivity.
Qed.

(** X5: the step numbers matter to the result only through the boundary
    function: two runs whose boundary function acts alike on the steps
    from [a] and on the steps from [b] return the same displacement,
    damage and connectivity. *)
Theorem result_ignores_step_numbers (steps : Z) (kw : Kwargs) (mem : Uninit)
    (a b : Z) :
  (forall v k,
     0 <= k < steps ->
     default (fun _ u _ => u) (boundary_function kw) self v (a + k) =
     default (fun _ u _ => u) (boundary_function kw) self v (b + k)) ->
  simulate self integrator steps (with_first_step a kw) mem =
  simulate self integrator steps (with_first_step b kw) mem.
Proof.
  intros Hbf.
  destruct (run_loop_total self integrator (with_first_step a kw) a steps
              (initial_state self (with_first_step a kw) mem)) as (st1 & H1).
  destruct (run_loop_total self integrator (with_first_step b kw) b steps
              (initial_state self (with_first_step b kw) mem)) as (st2 & H2).
  rewrite (simulate_of_loop self integrator _ (with_first_step a kw) _ _ H1),
    (simulate_of_loop self integrator _ (with_first_step b kw) _ _ H2).
  rewrite run_loop_unfold in H1, H2.
  assert (Hinit : initial_state self (with_first_step a kw) mem =
                  initial_state self (with_first_step b kw) mem)
    by (rewrite !initial_state_unfold; reflexivity).
  rewrite Hinit in H1.
  assert (Hsteps : Forall2
            (fun t1 t2 => forall v,
               default (fun _ u _ => u) (boundary_function kw) self v t1 =
               default (fun _ u _ => u) (boundary_function kw) self v t2)
            (py_range a (a + steps)) (py_range b (b + steps))).
  { apply py_range_Forall2. intros i Hi v. apply Hbf, Hi. }
  pose proof (for_each_mechanics self integrator _ _ _ _ _ _ _ _ _ _ _ _
                Hsteps H1 H2 eq_refl) as Hmech.
  pose proof (for_each_damage _ _ _ _ _ _ _ _ _ _ _ _
                Hsteps H1 H2 eq_refl eq_refl) as Hdmg.
  unfold mechanics in Hmech. injection Hmech as -> _ _ _ _ -> ->.
  rewrite Hdmg. reflexivity.
Qed.

(** X6: a negative number of steps is a run of no step: the same final
    state, log included, as with [steps = 0]. *)
Theorem negative_steps_run_nothing (steps : Z) (kw : Kwargs) (mem : Uninit) :
  steps <= 0 ->
  simulate_run self integrator steps kw mem =
    simulate_run self integrator 0 kw mem /\
  simulate self integrator steps kw mem = simulate self integrator 0 kw mem.
Proof.
  intros Hs. unfold simulate.
  rewrite !simulate_run_unfold, !run_loop_zero by lia. split; reflexivity.
Qed.

End Runs.

Section Logs.

Context {backend : Backend}.

Variable self : Model.
Variable integrator : field -> field -> field.

Lemma loop_body_log (bf : Model -> field -> Z -> field) (wr : option Z)
    (wp : path) (t : Z) (st st' : state) :
  loop_body self integrator bf wr wp t st = inr st' ->
  exists tail,
    log st' = log st ++ step_events t ++ tail /\
    (tail = [] \/
     exists d v,
       tail = [EvCopyDamage; EvWriteMesh (path_join wp (snapshot_name t)) d v]).
Proof.
  destruct (loop_body_spec self integrator bf wr wp t st) as (s7 & -> & Hk).
  destruct (write_branch_spec wr wp t s7) as (s' & -> & _ & _ & Hw).
  intros [= <-]. destruct Hk as (Hlog & _).
  destruct (snapshot_due wr t).
  - destruct Hw as (-> & _). eexists. split.
    + rewrite Hlog, <- app_assoc. reflexivity.
    + right. eauto.
  - subst s'. exists []. split; [|left; reflexivity].
    rewrite Hlog, app_nil_r. reflexivity.
Qed.

Lemma boundary_steps_app (l1 l2 : list event) :
  boundary_steps (l1 ++ l2) = boundary_steps l1 ++ boundary_steps l2.
Proof. unfold boundary_steps. apply flat_map_app. Qed.

Lemma for_each_calls (bf : Model -> field -> Z -> field) (wr : option Z)
    (wp : path) (l : list Z) (st st' : state) :
  for_each (loop_body self integrator bf wr wp) l st = inr st' ->
  boundary_steps (log st') = boundary_steps (log st) ++ l /\
  length (List.filter is_dispatch (log st')) =
    (length (List.filter is_dispatch (log st)) + 3 * length l)%nat /\
  length (List.filter is_integrator_call (log st')) =
    (length (List.filter is_integrator_call (log st)) + length l)%nat.
Proof.
  revert st. induction l as [|t l IH]; intros st; simpl.
  - intros [= <-]. rewrite app_nil_r. repeat split; lia.
  - unfold seq_action.
    destruct (loop_body self integrator bf wr wp t st) as [e|s1] eqn:Hb;
      simpl; [discriminate|].
    intros Hrest. destruct (IH _ Hrest) as (Hbs & Hd & Hi).
    destruct (loop_body_log _ _ _ _ _ _ Hb) as (tail & Hlog & Htail).
    rewrite Hbs, Hd, Hi, Hlog.
    rewrite !boundary_steps_app, !List.filter_app, !length_app.
    destruct Htail as [-> | (d & v & ->)]; simpl;
      rewrite <- app_assoc; repeat split; lia.
Qed.

Lemma py_range_size (a k : Z) : length (py_range a (a + k)) = Z.to_nat k.
Proof. rewrite py_range_length, length_map, length_seq. reflexivity. Qed.

(** X7: in a whole run the boundary function is called once per step,
    with the step numbers first_step, first_step + 1, ... in order; the
    integrator is called once per step, and three kernels are dispatched
    per step. *)
Theorem calls_per_run (steps : Z) (kw : Kwargs) (mem : Uninit) :
  exists st,
    simulate_run self integrator steps kw mem = inr st /\
    boundary_steps (log st) =
      py_range (first_step kw) (first_step kw + steps) /\
    length (List.filter is_integrator_call (log st)) = Z.to_nat steps /\
    length (List.filter is_dispatch (log st)) = (3 * Z.to_nat steps)%nat.
Proof.
  destruct (run_loop_total self integrator kw (first_step kw) steps
              (initial_state self kw mem)) as (st & Hst).
  rewrite simulate_run_unfold, Hst.
  change (bind (inr st) final_sync) with (final_sync st).
  rewrite final_sync_spec. eexists. split; [reflexivity|].
  cbn [log]. rewrite run_loop_unfold in Hst.
  apply for_each_calls in Hst. destruct Hst as (Hbs & Hd & Hi).
  rewrite boundary_steps_app, !List.filter_app, !length_app, Hbs, Hd, Hi.
  rewrite initial_state_unfold, py_range_size. simpl.
  rewrite app_nil_r. repeat split; lia.
Qed.

(** X8: a snapshot written in step [t] is the last action of the step
    and carries the state the step ends in: the damage the damage kernel
    has just computed, which the host damage array now holds too, and the
    displacement after the boundary conditions. *)
Theorem snapshot_is_current (bf : Model -> field -> Z -> field)
    (wr : option Z) (wp : path) (t : Z) (st st' : state) :
  snapshot_due wr t = true ->
  loop_body self integrator bf wr wp t st = inr st' ->
  (exists pre,
     log st' =
     pre ++ [EvWriteMesh (path_join wp (snapshot_name t))
               (damage_d (dev st')) (u (host st'))]) /\
  damage (host st') = damage_d (dev st') /\
  damage_d (dev st') =
    damage_kernel (nnodes self) (n_neigh_d (dev st')) (family_d (dev st'))
      (damage_d (dev st)).
Proof.
  intros Hdue Hbody.
  destruct (loop_body_device self integrator _ _ _ _ _ _ Hbody)
    as (Hfam & _ & Hdmg).
  destruct (loop_body_spec self integrator bf wr wp t st) as (s7 & Heq & Hk).
  rewrite Heq in Hbody.
  destruct (write_branch_spec wr wp t s7) as (s' & Hw & Hd & Hh & Hlog).
  rewrite Hw in Hbody. injection Hbody as <-.
  rewrite Hdue in Hlog. destruct Hlog as (Hlog & Hhd).
  injection Hh as Hu _ _ _.
  split; [|split].
  - exists (log s7 ++ [EvCopyDamage]). rewrite Hlog, Hd, Hu, <- app_assoc.
    reflexivity.
  - rewrite Hhd, Hd. reflexivity.
  - rewrite Hfam. exact Hdmg.
Qed.


Lemma snapshot_due_opp (w t : Z) :
  snapshot_due (Some (- w)) t = snapshot_due (Some w) t.
Proof.
  unfold snapshot_due.
  destruct (Z.eq_dec w 0) as [->|Hw]; [reflexivity|].
  replace (- w =? 0) with (w =? 0) by (apply eq_true_iff_eq; lia).
  f_equal. apply eq_true_iff_eq.
  rewrite !Z.eqb_eq, !Z.mod_divide by lia.
  apply Z.divide_opp_l.
Qed.

Lemma run_snapshots (steps : Z) (kw : Kwargs) (mem : Uninit) :
  exists st,
    simulate_run self integrator steps kw mem = inr st /\
    snapshots (log st) =
    map (fun t => path_join (default default_write_path (write_path kw))
                    (snapshot_name t))
      (List.filter (snapshot_due (write kw))
         (py_range (first_step kw) (first_step kw + steps))).
Proof.
  destruct (run_loop_total self integrator kw (first_step kw) steps
              (initial_state self kw mem)) as (st & Hst).
  rewrite simulate_run_unfold, Hst.
  change (bind (inr st) final_sync) with (final_sync st).
  rewrite final_sync_spec. eexists. split; [reflexivity|].
  cbn [log]. rewrite run_loop_unfold in Hst.
  apply snapshots_for_each in Hst.
  rewrite snapshots_app, Hst, initial_state_unfold. simpl.
  rewrite app_nil_r. reflexivity.
Qed.

(** X10: a negative write interval works as its absolute value does:
    the runs with [write = -w] and [write = w] write the same snapshots,
    since [step % write == 0] holds for the one exactly when it holds
    for the other. *)
Theorem negative_write_interval (steps : Z) (kw : Kwargs) (mem : Uninit)
    (w : Z) :
  exists st1 st2,
    simulate_run self integrator steps (with_write (Some (- w)) kw) mem
      = inr st1 /\
    simulate_run self integrator steps (with_write (Some w) kw) mem
      = inr st2 /\
    snapshots (log st1) = snapshots (log st2).
Proof.
  destruct (run_snapshots steps (with_write (Some (- w)) kw) mem)
    as (st1 & H1 & Hs1).
  destruct (run_snapshots steps (with_write (Some w) kw) mem)
    as (st2 & H2 & Hs2).
  exists st1, st2. split; [exact H1|]. split; [exact H2|].
  rewrite Hs1, Hs2. simpl. f_equal.
  apply filter_ext. intros t. apply snapshot_due_opp.
Qed.

Lemma py_range_NoDup (a b : Z) : List.NoDup (py_range a b).
Proof.
  unfold py_range. apply Finite.Injective_map_NoDup.
  - intros i j H. lia.
  - apply seq_NoDup.
Qed.

(** X11: no two snapshots of one run go to the same path. *)
Theorem snapshot_paths_distinct (steps : Z) (kw : Kwargs) (mem : Uninit) :
  exists st,
    simulate_run self integrator steps kw mem = inr st /\
    List.NoDup (snapshots (log st)).
Proof.
  destruct (run_snapshots steps kw mem) as (st & Hrun & Hs).
  exists st. split; [exact Hrun|]. rewrite Hs.
  apply Finite.Injective_map_NoDup.
  - intros t1 t2 H. unfold path_join in H.
    apply app_inj_tail in H. destruct H as (_ & H).
    apply snapshot_name_inj, H.
  - apply List.NoDup_filter, py_range_NoDup.
Qed.

End Logs.

Section Restart.

Context {backend : Backend}.

Variable self : Model.
Variable integrator : field -> field -> field.

Lemma py_range_cons (a m : Z) :
  1 <= m -> py_range a (a + m) = a :: py_range (a + 1) (a + m).
Proof.
  intros Hm. rewrite (py_range_split a 1 m) by lia.
  rewrite (py_range_length a 1). simpl. rewrite Z.add_0_r. reflexivity.
Qed.

Lemma for_each_cons_inv (body : Z -> action) (t : Z) (l : list Z)
    (st st' : state) :
  for_each body (t :: l) st = inr st' ->
  exists s1, body t st = inr s1 /\ for_each body l s1 = inr st'.
Proof.
  simpl. unfold seq_action. destruct (body t st) as [e|s1]; simpl.
  - discriminate.
  - intros H. eauto.
Qed.

(** With arrays of [nnodes] entries the damage kernel writes every cell
    of the damage buffer. *)
Lemma damage_kernel_overwrites (nn : nat) (cnt fam : list Z) (d1 d2 : list Q) :
  length d1 = length d2 -> length d1 = length cnt ->
  length cnt = length fam -> length fam = nn ->
  damage_kernel nn cnt fam d1 = damage_kernel nn cnt fam d2.
Proof.
  intros H12 H1c Hcf Hfn. apply list_eq. intros i.
  unfold damage_kernel. rewrite !list_lookup_imap.
  destruct (decide (i < length d1)%nat) as [Hi|Hi].
  - destruct (lookup_lt_is_Some_2 d1 i Hi) as (x1 & ->).
    destruct (lookup_lt_is_Some_2 d2 i) as (x2 & ->); [lia|].
    destruct (lookup_lt_is_Some_2 cnt i) as (n & ->); [lia|].
    destruct (lookup_lt_is_Some_2 fam i) as (f & ->); [lia|].
    simpl. destruct (i <? nn)%nat eqn:E; [reflexivity|].
    apply Nat.ltb_ge in E. lia.
  - rewrite (lookup_ge_None_2 d1), (lookup_ge_None_2 d2) by lia. reflexivity.
Qed.

(** X12: with arrays of [nnodes] entries, a restart of at least one step
    returns exactly what the uninterrupted run returns, the damage
    included. *)
Theorem restart_exact (kw : Kwargs) (mem mem' : Uninit) (n m : Z) :
  0 <= n -> 1 <= m ->
  length (family self) = nnodes self ->
  length (default (initial_connectivity self) (connectivity kw)).2
    = nnodes self ->
  exists u1 d1 c1 r,
    simulate self integrator n kw mem = inr (u1, d1, c1) /\
    simulate self integrator m (restart kw u1 c1 n) mem' = inr r /\
    simulate self integrator (n + m) kw mem = inr r.
Proof.
  intros Hn Hm Hfl Hcl.
  destruct (run_loop_between self integrator kw (first_step kw) n (n + m)
              (initial_state self kw mem)) as (st_n & st_k & Hrn & Hrk & Hbt);
    [lia|].
  set (kw' := restart kw (u (host st_n))
                (nlist_d (dev st_n), n_neigh_d (dev st_n)) n).
  destruct (run_loop_total self integrator kw' (first_step kw') m
              (initial_state self kw' mem')) as (st2 & Hr2).
  exists (u (host st_n)), (damage_d (dev st_n)),
    (nlist_d (dev st_n), n_neigh_d (dev st_n)).
  eexists.
  split; [exact (simulate_of_loop self integrator _ _ _ _ Hrn)|].
  split; [exact (simulate_of_loop self integrator _ _ _ _ Hr2)|].
  rewrite (simulate_of_loop self integrator _ _ _ _ Hrk).
  rewrite run_loop_unfold in Hr2. rewrite run_loop_unfold in Hrn.
  pose proof Hrn as Hco.
  apply for_each_coherent in Hco; [|rewrite initial_state_unfold; reflexivity].
  destruct Hco as (Hr & Hc & _).
  rewrite initial_state_unfold in Hc. simpl in Hc.
  injection Hc as Hr0 Hv Hfam.
  destruct (for_each_device self integrator _ _ _ _ _ _ Hrn)
    as (_ & Hle & Hdl & _).
  apply Forall2_length in Hle.
  destruct (initial_device self kw mem) as (_ & Hc0 & Hd0).
  rewrite Hc0 in Hle, Hd0. rewrite Hd0 in Hdl.
  replace (first_step kw + (n + m)) with (first_step kw' + m) in Hbt
    by (simpl; lia).
  change (first_step kw + n) with (first_step kw') in Hbt.
  rewrite py_range_cons in Hr2, Hbt by lia.
  apply for_each_cons_inv in Hr2. destruct Hr2 as (sa & Ha & Hra).
  apply for_each_cons_inv in Hbt. destruct Hbt as (sb & Hb & Hrb).
  assert (Hm0 : mechanics (initial_state self kw' mem') = mechanics st_n).
  { rewrite initial_mechanics. unfold mechanics. simpl.
    rewrite Hr, Hr0, Hv, Hfam. reflexivity. }
  pose proof (loop_body_mechanics self integrator _ _ _ _ _ _ _ _ _ _ _ _
                (fun v => eq_refl) Ha Hb Hm0) as Hm1.
  assert (Hd1 : damage_d (dev sa) = damage_d (dev sb)).
  { destruct (loop_body_device self integrator _ _ _ _ _ _ Ha)
      as (_ & Hca & ->).
    destruct (loop_body_device self integrator _ _ _ _ _ _ Hb)
      as (_ & Hcb & ->).
    pose proof Hm1 as Hm1'. unfold mechanics in Hm1'.
    injection Hm1' as _ _ _ _ _ _ Hcnt. rewrite Hcnt.
    destruct (initial_device self kw' mem') as (Hf' & Hc' & Hd').
    rewrite Hf', Hfam.
    apply damage_kernel_overwrites.
    - rewrite Hd', Hc'. simpl. lia.
    - rewrite Hd', Hc', <- Hcnt, Hca, break_counts_length, Hc'. reflexivity.
    - rewrite Hcb, break_counts_length. lia.
    - exact Hfl. }
  pose proof (for_each_mechanics self integrator _ _ _ _ _ _ _ _ _ _ _ _
                (same_steps self _ _) Hra Hrb Hm1) as Hmech.
  pose proof (for_each_damage self integrator _ _ _ _ _ _ _ _ _ _ _ _
                (same_steps self _ _) Hra Hrb Hm1 Hd1) as Hdmg.
  unfold mechanics in Hmech. injection Hmech as -> _ _ _ _ -> ->.
  rewrite Hdmg. reflexivity.
Qed.

End Restart.

Section Construction.

Context {backend : Backend}.



End Construction.

(** ** The further properties on the three-node chain *)

Lemma restart_continues_witness :
  0 <= 1 /\ 0 <= 2 /\
  exists u1 d1 c1 u2 d2 d3 c2,
    simulate Line.chain Line.euler 1 Line.kwargs (Line.memory 0)
      = inr (u1, d1, c1) /\
    simulate Line.chain Line.euler 2 (restart Line.kwargs u1 c1 1)
      (Line.memory 5) = inr (u2, d2, c2) /\
    simulate Line.chain Line.euler (1 + 2) Line.kwargs (Line.memory 0)
      = inr (u2, d3, c2).
Proof.
  split; [lia|]. split; [lia|].
  apply (restart_continues Line.chain Line.euler Line.kwargs (Line.memory 0)
           (Line.memory 5) 1 2); lia.
Defined.

Lemma result_ignores_step_numbers_witness :
  (forall (v : list Q) (k : Z),
     0 <= k < 3 ->
     default (fun _ u _ => u) (boundary_function Line.unloaded) Line.chain v
       (1 + k) =
     default (fun _ u _ => u) (boundary_function Line.unloaded) Line.chain v
       (10 + k)) /\
  simulate Line.chain Line.euler 3 (with_first_step 1 Line.unloaded)
    (Line.memory 0) =
  simulate Line.chain Line.euler 3 (with_first_step 10 Line.unloaded)
    (Line.memory 0).
Proof.
  assert (H0 : forall (v : list Q) (k : Z),
             0 <= k < 3 ->
             default (fun _ u _ => u) (boundary_function Line.unloaded)
               Line.chain v (1 + k) =
             default (fun _ u _ => u) (boundary_function Line.unloaded)
               Line.chain v (10 + k))
    by (intros v k _; reflexivity).
  split; [exact H0|].
  apply (result_ignores_step_numbers Line.chain Line.euler 3 Line.unloaded
           (Line.memory 0) 1 10).
  exact H0.
Defined.

Lemma negative_steps_run_nothing_witness :
  -3 <= 0 /\
  simulate Line.chain Line.euler (-3) Line.kwargs (Line.memory 0) =
  simulate Line.chain Line.euler 0 Line.kwargs (Line.memory 0).
Proof.
  split; [lia|].
  apply (negative_steps_run_nothing Line.chain Line.euler (-3) Line.kwargs
           (Line.memory 0)).
  lia.
Defined.

Lemma snapshot_is_current_witness :
  snapshot_due (Some 2) 2 = true /\
  exists st',
    loop_body Line.chain Line.euler Line.pull (Some 2) ["out"%string] 2
      (initial_state Line.chain Line.kwargs (Line.memory 0)) = inr st' /\
    damage (host st') = damage_d (dev st').
Proof.
  split; [reflexivity|].
  destruct (loop_body_total Line.chain Line.euler Line.pull (Some 2)
              ["out"%string] 2
              (initial_state Line.chain Line.kwargs (Line.memory 0)))
    as (st' & Hbody).
  exists st'. split; [exact Hbody|].
  exact (proj1 (proj2
           (snapshot_is_current Line.chain Line.euler Line.pull (Some 2)
              ["out"%string] 2
              (initial_state Line.chain Line.kwargs (Line.memory 0)) st'
              eq_refl Hbody))).
Defined.

Lemma restart_exact_witness :
  0 <= 1 /\ 1 <= 2 /\
  length (family Line.chain) = nnodes Line.chain /\
  exists u1 d1 c1 r,
    simulate Line.chain Line.euler 1 Line.kwargs (Line.memory 0)
      = inr (u1, d1, c1) /\
    simulate Line.chain Line.euler 2 (restart Line.kwargs u1 c1 1)
      (Line.memory 5) = inr r /\
    simulate Line.chain Line.euler (1 + 2) Line.kwargs (Line.memory 0) = inr r.
Proof.
  split; [lia|]. split; [lia|]. split; [reflexivity|].
  apply (restart_exact Line.chain Line.euler Line.kwargs (Line.memory 0)
           (Line.memory 5) 1 2); [lia | lia | reflexivity | reflexivity].
Defined.

